(** * quantecon_wasm.random.utilities: random vectors, sampling, categorical draws

    A shallow embedding of [src/quantecon_wasm/random/utilities.py]
    ([probvec], [_probvec], [_probvec_cpu], [sample_without_replacement],
    [_sample_without_replacement_single], [draw]) and the properties its
    specification states about them.

    Floating-point numbers are modelled by exact rationals ([Q]); Python
    integers by [Z]; numpy arrays by lists ([list Q], [list Z], and lists of
    rows for two-dimensional arrays); exceptions by the [res] type; the
    mutable state of random generators by an explicit [World] threaded through
    a state-and-error monad. *)

From Stdlib Require Import ZArith QArith Qround String Lia Sorted.
From stdpp Require Import base list.

(** ** Exceptions and fallible results *)

(** The two Python exceptions that the modelled code and its numpy
    primitives can raise.  The specification calls [ValueError]
    [InvalidArgument]. *)
Inductive exn : Type :=
| ValueError (msg : string)
| IndexError (msg : string).

Inductive res (A : Type) : Type :=
| Ok (a : A)
| Raise (e : exn).
Arguments Ok {A} a.
Arguments Raise {A} e.

Global Instance res_ret : MRet res := fun A a => Ok a.
Global Instance res_bind : MBind res := fun A B f m =>
  match m with
  | Ok a => f a
  | Raise e => Raise e
  end.

(** [for i in idxs: s = body(i, s)] with exceptions propagating. *)
Fixpoint for_each {St : Type} (body : nat -> St -> res St) (idxs : list nat) (s : St)
  : res St :=
  match idxs with
  | [] => Ok s
  | i :: rest => s' ← body i s; for_each body rest s'
  end.

(** [for i in range(lo, hi)]; empty when [hi <= lo], as in Python. *)
Definition for_range {St : Type} (lo hi : nat) (body : nat -> St -> res St) (s : St)
  : res St :=
  for_each body (seq lo (hi - lo)) s.

(** [[f(x) for x in xs]]: evaluated left to right, the first exception wins. *)
Fixpoint comprehension {A B : Type} (f : A -> res B) (xs : list A) : res (list B) :=
  match xs with
  | [] => Ok []
  | x :: rest => y ← f x; ys ← comprehension f rest; Ok (y :: ys)
  end.

(** ** numpy arrays as lists *)

Definition index_error : exn := IndexError "index is out of bounds".
Definition negative_dimensions : exn :=
  ValueError "negative dimensions are not allowed".

(** numpy resolves an integer index against an axis of length [len]:
    [0 <= i < len] is position [i], [-len <= i < 0] counts from the end,
    anything else raises [IndexError]. *)
Definition np_index (len : nat) (i : Z) : option nat :=
  let n := Z.of_nat len in
  if ((0 <=? i) && (i <? n))%Z then Some (Z.to_nat i)
  else if ((- n <=? i) && (i <? 0))%Z then Some (Z.to_nat (i + n))
  else None.

(** [a[i]] *)
Definition np_get {A : Type} (a : list A) (i : Z) : res A :=
  match np_index (length a) i with
  | Some j =>
      match a !! j with
      | Some x => Ok x
      | None => Raise index_error
      end
  | None => Raise index_error
  end.

(** [a[i] = x], returning the updated array. *)
Definition np_set {A : Type} (a : list A) (i : Z) (x : A) : res (list A) :=
  match np_index (length a) i with
  | Some j => Ok (<[j:=x]> a)
  | None => Raise index_error
  end.

(** [np.arange(n)] *)
Definition np_arange (n : Z) : list Z := map Z.of_nat (seq 0 (Z.to_nat n)).

(** [np.ones((m, k))] *)
Definition np_ones (m k : Z) : res (list (list Q)) :=
  if ((m <? 0) || (k <? 0))%Z then Raise negative_dimensions
  else Ok (replicate (Z.to_nat m) (replicate (Z.to_nat k) 1%Q)).

(** [np.empty(n)]: an array of [n] cells with unspecified content [junk]. *)
Definition np_empty {A : Type} (junk : A) (n : Z) : res (list A) :=
  if (n <? 0)%Z then Raise negative_dimensions
  else Ok (replicate (Z.to_nat n) junk).

(** [np.empty((m, k))] *)
Definition np_empty2 {A : Type} (junk : A) (m k : Z) : res (list (list A)) :=
  if ((m <? 0) || (k <? 0))%Z then Raise negative_dimensions
  else Ok (replicate (Z.to_nat m) (replicate (Z.to_nat k) junk)).

(** [r.sort()]: ascending sort of a one-dimensional float array. *)
Fixpoint sort_insert (x : Q) (l : list Q) : list Q :=
  match l with
  | [] => [x]
  | y :: l' => if Qle_bool x y then x :: l else y :: sort_insert x l'
  end.

Fixpoint np_sort (l : list Q) : list Q :=
  match l with
  | [] => []
  | x :: l' => sort_insert x (np_sort l')
  end.

(** ** The random source *)

(** A generator object: the infinite sequence of uniform variates it will
    ever produce, and how many it has handed out so far. *)
Record Generator : Type := MkGenerator { stream : nat -> Q; pos : nat }.

(** The next [n] variates of [g], in the order they are produced. *)
Definition uniforms (g : Generator) (n : nat) : list Q :=
  map (fun i => stream g (pos g + i)%nat) (seq 0 n).

Definition advance (g : Generator) (n : nat) : Generator :=
  MkGenerator (stream g) (pos g + n).

(** C-order reshape of [rows * cols] values into [rows] rows. *)
Definition reshape {A : Type} (rows cols : nat) (flat : list A) : list (list A) :=
  map (fun i => take cols (drop (i * cols) flat)) (seq 0 rows).

(** Everything mutable that the module can touch: numpy's module-level
    generator ([np.random.random]), the generator objects that exist
    ([heap], addressed by position), and a counter of how many times the
    operating system was asked for fresh entropy. *)
Record World : Type := MkWorld {
  np_random : Generator;
  heap : list Generator;
  entropy : nat
}.

(** State-and-exception monad over the world. *)
Definition M (A : Type) : Type := World -> res A * World.

Global Instance M_ret : MRet M := fun A a w => (Ok a, w).
Global Instance M_bind : MBind M := fun A B f m w =>
  match m w with
  | (Ok a, w') => f a w'
  | (Raise e, w') => (Raise e, w')
  end.

Definition raise {A : Type} (e : exn) : M A := fun w => (Raise e, w).
Definition lift {A : Type} (r : res A) : M A := fun w => (r, w).

(** Allocation of a new generator object; returns its reference. *)
Definition new_generator (g : Generator) : M nat := fun w =>
  (Ok (length (heap w)), MkWorld (np_random w) (heap w ++ [g]) (entropy w)).

(** [g.random(size=size)] for an integer [size], on the generator object
    referenced by [ref]. *)
Definition random_sample (ref : nat) (size : Z) : M (list Q) := fun w =>
  if (size <? 0)%Z then (Raise negative_dimensions, w)
  else
    match heap w !! ref with
    | Some g =>
        let n := Z.to_nat size in
        (Ok (uniforms g n),
         MkWorld (np_random w) (<[ref := advance g n]> (heap w)) (entropy w))
    | None => (Raise (ValueError "not a generator"), w)
    end.

(** [g.random(size=(rows, cols))] *)
Definition random_sample2 (ref : nat) (rows cols : Z) : M (list (list Q)) := fun w =>
  if ((rows <? 0) || (cols <? 0))%Z then (Raise negative_dimensions, w)
  else
    match heap w !! ref with
    | Some g =>
        let n := (Z.to_nat rows * Z.to_nat cols)%nat in
        (Ok (reshape (Z.to_nat rows) (Z.to_nat cols) (uniforms g n)),
         MkWorld (np_random w) (<[ref := advance g n]> (heap w)) (entropy w))
    | None => (Raise (ValueError "not a generator"), w)
    end.

(** [np.random.random(size)] on the module-level generator. *)
Definition np_random_random (size : Z) : M (list Q) := fun w =>
  if (size <? 0)%Z then (Raise negative_dimensions, w)
  else
    let n := Z.to_nat size in
    (Ok (uniforms (np_random w) n),
     MkWorld (advance (np_random w) n) (heap w) (entropy w)).

(** [np.random.random()]: one variate, as a scalar. *)
Definition np_random_random0 : M Q := fun w =>
  (Ok (stream (np_random w) (pos (np_random w))),
   MkWorld (advance (np_random w) 1) (heap w) (entropy w)).

(** The [random_state] argument as a caller can pass it: [None], an
    integer seed, a generator object, or anything else. *)
Inductive random_state_arg : Type :=
| RS_None
| RS_Int (seed : Z)
| RS_Generator (ref : nat)
| RS_Other (repr : string).

(** ** The deprecated namespaces [ecdf], [filter] and [lqnash]

    Each of [ecdf.py], [filter.py] and [lqnash.py] defines [__all__],
    [__dir__] and a module-level [__getattr__] that forwards the exported
    names to a private module, after a [DeprecationWarning]. *)

(** What an attribute lookup gives: the object found, or [AttributeError]. *)
Inductive attr (Obj : Type) : Type :=
| Found (o : Obj)
| AttributeError (msg : string).
Arguments Found {Obj} o.
Arguments AttributeError {Obj} msg.

(** A call [warnings.warn(message, category=category, stacklevel=stacklevel)]. *)
Record Warning : Type := MkWarning {
  message : string;
  category : string;
  stacklevel : Z
}.

Definition newline : string := String (Ascii.ascii_of_nat 10) EmptyString.

(** [ecdf.py].  [_ecdf] is [getattr] on the private module [_ecdf], which
    is not among the sources; the function returns the warnings it emitted
    and its result. *)
Module Ecdf.

Definition __all__ : list string := ["ECDF"%string].

Definition __dir__ : list string := __all__.

Definition __getattr__ {Obj : Type} (_ecdf : string -> attr Obj) (name : string)
  : list Warning * attr Obj :=
  if negb (existsb (String.eqb name) __all__)
  then ([],
        AttributeError
          ("`quantecon_wasm.ecdf` is deprecated and has no attribute "
           ++ "'" ++ name ++ "'.")%string)
  else ([MkWarning
           ("Please use `" ++ name ++ "` from the `quantecon` namespace, "
            ++ "the `quantecon_wasm.ecdf` namespace is deprecated. You can use "
            ++ "the following instead:" ++ newline
            ++ " `from quantecon_wasm import " ++ name ++ "`.")%string
           "DeprecationWarning" 2],
        _ecdf name).

End Ecdf.

(** [filter.py] *)
Module Filter.

Definition __all__ : list string := ["hamilton_filter"%string].

Definition __dir__ : list string := __all__.

Definition __getattr__ {Obj : Type} (_filter : string -> attr Obj) (name : string)
  : list Warning * attr Obj :=
  if negb (existsb (String.eqb name) __all__)
  then ([],
        AttributeError
          ("`quantecon_wasm.filter` is deprecated and has no attribute "
           ++ "'" ++ name ++ "'.")%string)
  else ([MkWarning
           ("Please use `" ++ name ++ "` from the `quantecon` namespace, "
            ++ "the `quantecon_wasm.filter` namespace is deprecated. You can use"
            ++ " the following instead:" ++ newline
            ++ " `from quantecon_wasm import " ++ name ++ "`.")%string
           "DeprecationWarning" 2],
        _filter name).

End Filter.

(** [lqnash.py] *)
Module Lqnash.

Definition __all__ : list string := ["nnash"%string].

Definition __dir__ : list string := __all__.

Definition __getattr__ {Obj : Type} (_lqnash : string -> attr Obj) (name : string)
  : list Warning * attr Obj :=
  if negb (existsb (String.eqb name) __all__)
  then ([],
        AttributeError
          ("`quantecon_wasm.lqnash` is deprecated and has no attribute "
           ++ "'" ++ name ++ "'.")%string)
  else ([MkWarning
           ("Please use `" ++ name ++ "` from the `quantecon` namespace, the"
            ++ "`quantecon_wasm.lqnash` namespace is deprecated. You can use"
            ++ " the following instead:" ++ newline
            ++ " `from quantecon_wasm import " ++ name ++ "`.")%string
           "DeprecationWarning" 2],
        _lqnash name).

End Lqnash.

(** ** A concrete random source

    A fixed sequence of variates and the generators built on it; the
    statements below are instantiated on them. *)

Definition demo_stream (i : nat) : Q :=
  match i with
  | 0%nat => 7 # 10
  | 1%nat => 1 # 5
  | 2%nat => 9 # 10
  | 3%nat => 1 # 2
  | 4%nat => 0
  | _ => 3 # 10
  end.

Definition demo_seeded (s : Z) (i : nat) : Q := demo_stream (Z.abs_nat s + i).
Definition demo_unseeded (e i : nat) : Q := demo_stream (e + i).

Definition demo_world : World :=
  MkWorld (MkGenerator demo_stream 0) [MkGenerator demo_stream 2] 0.

(** ** The module *)

Section Utilities.

(** The generator algorithm is outside the module: [seeded s] is the
    sequence produced by a generator initialised with the integer seed [s],
    [unseeded e] the sequence of a generator initialised from the [e]-th
    read of operating-system entropy. *)
Variable seeded : Z -> nat -> Q.
Variable unseeded : nat -> nat -> Q.

(** Content of the cells that [np.empty] leaves uninitialised. *)
Variable uninit_float : Q.
Variable uninit_int : Z.

(** Modelled from the spec: [check_random_state] of [quantecon_wasm.util],
    which is imported by the module but is not among the sources.  The
    specification (section 6) describes it as a normalisation that accepts
    None (a fresh unseeded state), an integer seed, or an existing generator
    handle (passed through), returns a ready-to-use generator, and rejects
    other types with InvalidArgument.  A handle is a generator when it
    refers to a generator object. *)
Definition check_random_state (seed : random_state_arg) : M nat :=
  match seed with
  | RS_None => fun w =>
      new_generator (MkGenerator (unseeded (entropy w)) 0)
        (MkWorld (np_random w) (heap w) (S (entropy w)))
  | RS_Int s => new_generator (MkGenerator (seeded s) 0)
  | RS_Generator ref => fun w =>
      match heap w !! ref with
      | Some _ => (Ok ref, w)
      | None => (Raise (ValueError "random_state is not a generator"), w)
      end
  | RS_Other _ => raise (ValueError "random_state cannot be used as a seed")
  end.

(** [_probvec(r, out)]: [r] is a one-dimensional array (a row view), [out]
    the row it fills; returns [out] as left by the in-place writes.  The
    sorted [r] is not read again by any caller and is not returned. *)
Definition _probvec (r out : list Q) : res (list Q) :=
  let n := length r in
  let r := np_sort r in
  r0 ← np_get r 0;
  out ← np_set out 0 r0;
  out ← for_range 1 n (fun i out =>
           ri ← np_get r (Z.of_nat i);
           ri1 ← np_get r (Z.of_nat i - 1);
           np_set out (Z.of_nat i) (ri - ri1)%Q) out;
  rn1 ← np_get r (Z.of_nat n - 1);
  np_set out (Z.of_nat n) (1 - rn1)%Q.

(** [_probvec_cpu(r, out)] on a two-dimensional [r] (the [r.ndim == 2]
    branch, the only one [probvec] reaches): each row of [out] is filled
    through its view. *)
Definition _probvec_cpu (r out : list (list Q)) : res (list (list Q)) :=
  for_range 0 (length r) (fun i out =>
    ri ← np_get r (Z.of_nat i);
    outi ← np_get out (Z.of_nat i);
    outi ← _probvec ri outi;
    np_set out (Z.of_nat i) outi) out.

(** [probvec(m, k, random_state=None)].  The keyword [parallel] is
    accepted and never read by the source. *)
Definition probvec (m k : Z) (random_state : random_state_arg)
  : M (list (list Q)) :=
  if (k =? 1)%Z then lift (np_ones m k)
  else
    rs ← check_random_state random_state;
    r ← random_sample2 rs m (k - 1);
    x ← lift (np_empty2 uninit_float m k);
    lift (_probvec_cpu r x).

(** [_sample_without_replacement_single(n, r)] *)
Definition _sample_without_replacement_single (n : Z) (r : list Q)
  : res (list Z) :=
  let k := length r in
  let pool := np_arange n in
  out ← np_empty uninit_int (Z.of_nat k);
  '(out, pool) ← for_range 0 k (fun j '(out, pool) =>
      rj ← np_get r (Z.of_nat j);
      let idx := Qfloor (rj * inject_Z (n - Z.of_nat j)) in
      v ← np_get pool idx;
      out ← np_set out (Z.of_nat j) v;
      last ← np_get pool (n - Z.of_nat j - 1);
      pool ← np_set pool idx last;
      Ok (out, pool)) (out, pool);
  Ok out.

(** The value returned by [sample_without_replacement]: a flat array when
    [num_trials] is None, otherwise an array of one row per trial. *)
Inductive sample : Type :=
| Flat (out : list Z)
| Trials (outs : list (list Z)).

(** [sample_without_replacement(n, k, num_trials=None, random_state=None)].
    [size] is [k] or [(num_trials, k)]; the two shapes of [r] are drawn in
    the branch that uses them. *)
Definition sample_without_replacement
    (n k : Z) (num_trials : option Z) (random_state : random_state_arg)
  : M sample :=
  if (n <=? 0)%Z then raise (ValueError "n must be greater than 0")
  else if (k >? n)%Z
  then raise (ValueError "k must be smaller than or equal to n")
  else
    rs ← check_random_state random_state;
    match num_trials with
    | None =>
        r ← random_sample rs k;
        result ← lift (_sample_without_replacement_single n r);
        mret (Flat result)
    | Some t =>
        r ← random_sample2 rs t k;
        result ← lift (comprehension (_sample_without_replacement_single n) r);
        mret (Trials result)
    end.

(** The [size] argument of [draw]: None, an [int], or a value of another
    type (for which [isinstance(size, int)] is false). *)
Inductive size_arg : Type :=
| Size_None
| Size_Int (size : Z)
| Size_Other.

(** The value returned by [draw]: a scalar or an array. *)
Inductive drawn : Type :=
| Scalar (i : Z)
| Array (out : list Z).

Section Draw.

(** The ordered-search primitive [searchsorted] of [quantecon_wasm.util]
    is imported by the module but is not among the sources; [draw] is
    modelled over any such primitive. *)
Variable searchsorted : list Q -> Q -> Z.

(** [draw(cdf, size=None)] *)
Definition draw (cdf : list Q) (size : size_arg) : M drawn :=
  match size with
  | Size_Int size =>
      rs ← np_random_random size;
      out ← lift (np_empty uninit_int size);
      out ← lift (for_range 0 (Z.to_nat size) (fun i out =>
               rsi ← np_get rs (Z.of_nat i);
               np_set out (Z.of_nat i) (searchsorted cdf rsi)) out);
      mret (Array out)
  | _ =>
      r ← np_random_random0;
      mret (Scalar (searchsorted cdf r))
  end.

End Draw.

(** Modelled from the spec: the ordered-search primitive [searchsorted] of
    [quantecon_wasm.util], which is not among the sources.  The specification
    (sections 4.3 and 6) describes its result as the leftmost index [i] such
    that [cdf[i] > r]; when no entry exceeds [r] the scan ends at the length
    of the sequence. *)
Fixpoint searchsorted_leftmost (cdf : list Q) (r : Q) : Z :=
  match cdf with
  | [] => 0
  | c :: rest =>
      if Qle_bool c r then (1 + searchsorted_leftmost rest r)%Z else 0%Z
  end.

(** A numpy float array by its number of dimensions: a scalar array, a
    vector, a matrix, or an array of three or more dimensions (whose
    content plays no role here). *)
Inductive ndarray : Type :=
| Array0 (x : Q)
| Array1 (a : list Q)
| Array2 (a : list (list Q))
| ArrayN (ndim_minus_3 : nat).

(** [_probvec_cpu(r, out)] with the dispatch on [r.ndim], for a
    two-dimensional [out]; returns the caller's [out] as the call leaves
    it.  In the [r.ndim == 1] branch the name [out] is rebound to a fresh
    array, so the writes of [_probvec] do not reach the caller's array; the
    function itself returns None in every branch. *)
Definition _probvec_cpu_ndim (r : ndarray) (out : list (list Q))
  : res (list (list Q)) :=
  match r with
  | Array1 r1 =>
      fresh ← np_empty uninit_float (Z.of_nat (length r1) + 1);
      _ ← _probvec r1 fresh;
      Ok out
  | Array2 r2 => _probvec_cpu r2 out
  | _ => Raise (ValueError "Input `r` must be a 1D or 2D array.")
  end.

(** * Vocabulary of the specification *)

(** Sum of the entries of a row. *)
Definition Qsum (row : list Q) : Q := fold_right Qplus 0%Q row.

(** A probability vector: non-negative entries that sum to 1. *)
Definition probability_vector (row : list Q) : Prop :=
  Forall (fun p => (0 <= p)%Q) row /\ (Qsum row == 1)%Q.

(** The row that [_probvec] writes for an ascending [s]: the first value,
    the successive differences, and the remaining mass. *)
Fixpoint diffs (prev : Q) (s : list Q) : list Q :=
  match s with
  | [] => [(1 - prev)%Q]
  | x :: s' => (x - prev)%Q :: diffs x s'
  end.

Definition gaps (s : list Q) : list Q :=
  match s with
  | [] => []
  | x :: s' => x :: diffs x s'
  end.

(** A sequence of variates all in [[0, 1)]. *)
Definition uniform01 (f : nat -> Q) : Prop :=
  forall i : nat, (0 <= f i)%Q /\ (f i < 1)%Q.

(** The generator that a [random_state] argument denotes in a world, when
    it denotes one. *)
Definition source (random_state : random_state_arg) (w : World)
  : option Generator :=
  match random_state with
  | RS_None => Some (MkGenerator (unseeded (entropy w)) 0)
  | RS_Int s => Some (MkGenerator (seeded s) 0)
  | RS_Generator ref => heap w !! ref
  | RS_Other _ => None
  end.

(** Number of variates handed out so far by all generators of a world. *)
Definition draws_total (w : World) : nat :=
  (pos (np_random w) + foldr (fun g acc => pos g + acc) 0 (heap w))%nat.

(** All entries of an integer sample lie in [[0, n)]. *)
Definition in_range (n : Z) (out : list Z) : Prop :=
  Forall (fun x => (0 <= x < n)%Z) out.

(** [j] is the insertion index of [r] into [cdf]: the least index whose
    entry exceeds [r], or the length of [cdf] when no entry does. *)
Definition least_exceeding (cdf : list Q) (r : Q) (j : Z) : Prop :=
  exists jn : nat,
    j = Z.of_nat jn
    /\ (jn <= length cdf)%nat
    /\ (forall (i : nat) (c : Q), (i < jn)%nat -> cdf !! i = Some c -> (c <= r)%Q)
    /\ (forall c : Q, cdf !! jn = Some c -> (r < c)%Q).

(** The selection that a single trial performs, as a recursion on the
    variates: [pool] is the pool array, [live] the number of slots still in
    play. *)
Fixpoint select (pool : list Z) (live : Z) (r : list Q) : list Z :=
  match r with
  | [] => []
  | rj :: r' =>
      let i := Z.to_nat (Qfloor (rj * inject_Z live)) in
      match pool !! i, pool !! Z.to_nat (live - 1) with
      | Some v, Some l => v :: select (<[i:=l]> pool) (live - 1) r'
      | _, _ => []
      end
  end.


(** * Properties *)

(** ** Indexing and loops *)

Lemma np_index_nat (len i : nat) :
  (i < len)%nat -> np_index len (Z.of_nat i) = Some i.
Proof.
  intros Hi. unfold np_index.
  destruct (Z.leb_spec 0 (Z.of_nat i)); [|lia].
  destruct (Z.ltb_spec (Z.of_nat i) (Z.of_nat len)); [|lia].
  simpl. by rewrite Nat2Z.id.
Qed.

Lemma np_get_nat {A : Type} (a : list A) (i : nat) (x : A) :
  a !! i = Some x -> np_get a (Z.of_nat i) = Ok x.
Proof.
  intros Hx. unfold np_get.
  rewrite np_index_nat by (by eapply lookup_lt_Some).
  by rewrite Hx.
Qed.

Lemma np_set_nat {A : Type} (a : list A) (i : nat) (x : A) :
  (i < length a)%nat -> np_set a (Z.of_nat i) x = Ok (<[i:=x]> a).
Proof. intros Hi. unfold np_set. by rewrite np_index_nat. Qed.

(** Writing through an index never changes the length of an array. *)
Lemma np_set_length {A : Type} (a a' : list A) (i : Z) (x : A) :
  np_set a i x = Ok a' -> length a' = length a.
Proof.
  unfold np_set. destruct (np_index (length a) i); [|done].
  intros [= <-]. apply length_insert.
Qed.

(** Loop rule: an invariant [P i s] that every iteration re-establishes
    without raising holds at the exit, and the loop does not raise. *)
Lemma for_each_seq_inv {St : Type} (P : nat -> St -> Prop)
    (body : nat -> St -> res St) (n : nat) :
  forall (lo : nat) (s : St),
    P lo s ->
    (forall i s, (lo <= i < lo + n)%nat -> P i s ->
                 exists s', body i s = Ok s' /\ P (S i) s') ->
    exists s', for_each body (seq lo n) s = Ok s' /\ P (lo + n)%nat s'.
Proof.
  induction n as [|n IH]; intros lo s HP Hstep; simpl.
  - exists s. split; [done|]. by rewrite Nat.add_0_r.
  - destruct (Hstep lo s) as (s1 & Hb & HP1); [lia|done|].
    rewrite Hb. simpl.
    destruct (IH (S lo) s1) as (s2 & Hloop & HP2); [done| |].
    + intros i s' Hi. apply Hstep. lia.
    + exists s2. split; [done|].
      replace (lo + S n)%nat with (S lo + n)%nat by lia.
      done.
Qed.

Lemma for_range_inv {St : Type} (P : nat -> St -> Prop)
    (body : nat -> St -> res St) (lo hi : nat) (s : St) :
  (lo <= hi)%nat ->
  P lo s ->
  (forall i s, (lo <= i < hi)%nat -> P i s ->
               exists s', body i s = Ok s' /\ P (S i) s') ->
  exists s', for_range lo hi body s = Ok s' /\ P hi s'.
Proof.
  intros Hle HP Hstep. unfold for_range.
  destruct (for_each_seq_inv P body (hi - lo) lo s) as (s' & Hl & HP'); [done| |].
  - intros i s0 Hi. apply Hstep. lia.
  - exists s'. split; [done|].
    replace (lo + (hi - lo))%nat with hi in HP' by lia. done.
Qed.

(** Loop rule for outcomes: a property preserved by every iteration that
    returns holds of whatever the loop returns. *)
Lemma for_each_preserves {St : Type} (P : St -> Prop)
    (body : nat -> St -> res St) (idxs : list nat) :
  (forall i s s', body i s = Ok s' -> P s -> P s') ->
  forall s s', for_each body idxs s = Ok s' -> P s -> P s'.
Proof.
  intros Hstep. induction idxs as [|i idxs IH]; intros s s'; simpl.
  - by intros [= <-].
  - destruct (body i s) as [s1|e] eqn:Hb; simpl; [|done].
    intros Hl HP. eapply IH; [done|]. by eapply Hstep.
Qed.

(** A comprehension over elements on which the function returns does not
    raise, and gives one result per element, in order. *)
Lemma comprehension_Forall2 {A B : Type} (f : A -> res B) (xs : list A) :
  Forall (fun x => exists y, f x = Ok y) xs ->
  exists ys : list B,
    comprehension f xs = Ok ys /\ Forall2 (fun x y => f x = Ok y) xs ys.
Proof.
  induction 1 as [|x xs [y Hy] _ (ys & Hys & HF)]; simpl.
  - exists []. split; [done|constructor].
  - exists (y :: ys). rewrite Hy. simpl. rewrite Hys. simpl.
    split; [done|]. by constructor.
Qed.

(** ** Sorting *)

Lemma sort_insert_length (x : Q) (l : list Q) :
  length (sort_insert x l) = S (length l).
Proof.
  induction l as [|y l IH]; simpl; [done|].
  destruct (Qle_bool x y); simpl; [done|]. by rewrite IH.
Qed.

Lemma np_sort_length (l : list Q) : length (np_sort l) = length l.
Proof.
  induction l as [|x l IH]; simpl; [done|].
  by rewrite sort_insert_length, IH.
Qed.

Lemma sort_insert_Forall (P : Q -> Prop) (x : Q) (l : list Q) :
  P x -> Forall P l -> Forall P (sort_insert x l).
Proof.
  intros Hx. induction 1 as [|y l Hy Hl IH]; simpl.
  - by constructor.
  - destruct (Qle_bool x y); repeat constructor; done.
Qed.

Lemma np_sort_Forall (P : Q -> Prop) (l : list Q) :
  Forall P l -> Forall P (np_sort l).
Proof.
  induction 1 as [|x l Hx Hl IH]; simpl; [constructor|].
  by apply sort_insert_Forall.
Qed.

Lemma sort_insert_Sorted (x : Q) (l : list Q) :
  Sorted Qle l -> Sorted Qle (sort_insert x l).
Proof.
  induction 1 as [|y l Hl IH Hhd]; simpl.
  - repeat constructor.
  - destruct (Qle_bool x y) eqn:Hxy.
    + apply Qle_bool_iff in Hxy. repeat constructor; done.
    + assert (y <= x)%Q as Hyx.
      { apply Qlt_le_weak, Qnot_le_lt. intros Hle.
        apply Qle_bool_iff in Hle. congruence. }
      constructor; [done|].
      destruct l as [|z l]; simpl in *.
      * by constructor.
      * inversion Hhd; subst.
        destruct (Qle_bool x z); by constructor.
Qed.

Lemma np_sort_Sorted (l : list Q) : Sorted Qle (np_sort l).
Proof.
  induction l as [|x l IH]; simpl; [constructor|].
  by apply sort_insert_Sorted.
Qed.

(** ** The sorted-gaps transform *)

Lemma diffs_length (s : list Q) (prev : Q) :
  length (diffs prev s) = S (length s).
Proof. revert prev. induction s as [|x s IH]; intros prev; simpl; [done|]. by rewrite IH. Qed.

Lemma gaps_length (s : list Q) :
  s <> [] -> length (gaps s) = S (length s).
Proof. destruct s as [|x s]; [done|]. intros _. simpl. by rewrite diffs_length. Qed.

Lemma diffs_lookup_0 (s : list Q) (prev x : Q) :
  s !! 0%nat = Some x -> diffs prev s !! 0%nat = Some (x - prev)%Q.
Proof. destruct s; simpl; [done|]. by intros [= ->]. Qed.

Lemma diffs_lookup_S (s : list Q) :
  forall (prev : Q) (j : nat) (a b : Q),
    s !! j = Some b -> s !! S j = Some a ->
    diffs prev s !! S j = Some (a - b)%Q.
Proof.
  induction s as [|x s IH]; intros prev j a b Hb Ha; [done|].
  destruct j as [|j]; simpl in *.
  - injection Hb as ->. by apply diffs_lookup_0.
  - by eapply IH.
Qed.

Lemma diffs_lookup_last (s : list Q) :
  forall (prev b : Q),
    last (prev :: s) = Some b ->
    diffs prev s !! length s = Some (1 - b)%Q.
Proof.
  induction s as [|x s IH]; intros prev b Hb; simpl in *.
  - by injection Hb as ->.
  - by apply IH.
Qed.

(** Entry [i] of [gaps s], for [1 <= i < length s]. *)
Lemma gaps_lookup_S (s : list Q) (j : nat) (a b : Q) :
  s !! j = Some b -> s !! S j = Some a ->
  gaps s !! S j = Some (a - b)%Q.
Proof.
  destruct s as [|x s]; [done|]. simpl. intros Hb Ha.
  destruct j as [|j]; simpl in *.
  - injection Hb as ->. by apply diffs_lookup_0.
  - by eapply diffs_lookup_S.
Qed.

(** The last entry of [gaps s]. *)
Lemma gaps_lookup_last (s : list Q) (b : Q) :
  s !! (length s - 1)%nat = Some b ->
  gaps s !! length s = Some (1 - b)%Q.
Proof.
  destruct s as [|x s]; [done|]. simpl. rewrite Nat.sub_0_r. intros Hb.
  apply diffs_lookup_last. rewrite last_lookup. simpl. done.
Qed.

Lemma Qsum_diffs (s : list Q) (prev : Q) : (Qsum (diffs prev s) == 1 - prev)%Q.
Proof.
  revert prev. induction s as [|x s IH]; intros prev; simpl.
  - ring.
  - rewrite IH. ring.
Qed.

(** Telescoping: the entries of [gaps s] sum to 1. *)
Lemma Qsum_gaps (s : list Q) : s <> [] -> (Qsum (gaps s) == 1)%Q.
Proof.
  destruct s as [|x s]; [done|]. intros _. simpl.
  rewrite Qsum_diffs. ring.
Qed.

Lemma diffs_nonneg (s : list Q) :
  forall prev : Q,
    Sorted Qle (prev :: s) ->
    Forall (fun x => (x < 1)%Q) (prev :: s) ->
    Forall (fun p => (0 <= p)%Q) (diffs prev s).
Proof.
  induction s as [|x s IH]; intros prev Hs Hlt; simpl.
  - repeat constructor. inversion Hlt; subst.
    apply Qlt_le_weak. by apply (Qlt_minus_iff prev 1).
  - inversion Hs as [|? ? Hs' Hhd]; subst. inversion Hhd; subst.
    inversion Hlt; subst.
    constructor; [|by apply IH].
    by apply (Qle_minus_iff prev x).
Qed.

(** The gaps of an ascending sequence in [[0, 1)] are non-negative. *)
Lemma gaps_nonneg (s : list Q) :
  Sorted Qle s ->
  Forall (fun x => (0 <= x)%Q /\ (x < 1)%Q) s ->
  Forall (fun p => (0 <= p)%Q) (gaps s).
Proof.
  destruct s as [|x s]; [constructor|]. intros Hs Hr. simpl.
  inversion Hr as [|? ? [H0 H1] Hr']; subst.
  constructor; [done|]. apply diffs_nonneg; [done|].
  constructor; [done|]. eapply Forall_impl; [exact Hr'|]. by intros ? [_ ?].
Qed.

Lemma take_S_insert {A : Type} (o : list A) (i : nat) (v : A) :
  (i < length o)%nat -> take (S i) (<[i:=v]> o) = take i o ++ [v].
Proof.
  intros Hi.
  rewrite (take_S_r (<[i:=v]> o) i v) by (by apply list_lookup_insert_eq).
  by rewrite take_insert_ge.
Qed.

(** [_probvec] does not raise on a non-empty [r] and an [out] one longer,
    and overwrites every cell of [out]: the result is the gaps of the
    sorted [r], whatever [out] held before. *)
Lemma _probvec_gaps (r out : list Q) :
  r <> [] -> length out = S (length r) ->
  _probvec r out = Ok (gaps (np_sort r)).
Proof.
  intros Hr Hout. unfold _probvec.
  pose proof (np_sort_length r) as Hlen.
  set (s := np_sort r) in *. set (n := length r) in *.
  assert (0 < n)%nat as Hn by (subst n; destruct r; simpl; [done|lia]).
  assert (s <> []) as Hs by (intros E; rewrite E in Hlen; simpl in Hlen; lia).
  destruct (lookup_lt_is_Some_2 s 0%nat) as [s0 Hs0]; [lia|].
  change 0%Z with (Z.of_nat 0).
  rewrite (np_get_nat s 0%nat s0 Hs0). simpl.
  change 0%Z with (Z.of_nat 0).
  rewrite (np_set_nat out 0%nat s0) by lia. simpl.
  destruct (for_range_inv
    (fun i o => length o = S n /\ take i o = take i (gaps s))
    (fun i out0 =>
       ri ← np_get s (Z.of_nat i);
       ri1 ← np_get s (Z.of_nat i - 1);
       np_set out0 (Z.of_nat i) (ri - ri1)%Q)
    1%nat n (<[0%nat:=s0]> out)) as (o & -> & Hlo & Hto).
  - lia.
  - split; [by rewrite length_insert|].
    destruct out as [|o0 out]; [done|]. destruct s as [|x s']; [done|].
    simpl in *. by injection Hs0 as ->.
  - intros i o Hi [Hlo Hto].
    destruct (lookup_lt_is_Some_2 s i) as [a Ha]; [lia|].
    destruct (lookup_lt_is_Some_2 s (i - 1)%nat) as [b Hb]; [lia|].
    rewrite (np_get_nat s i a Ha). simpl.
    replace (Z.of_nat i - 1)%Z with (Z.of_nat (i - 1)) by lia.
    rewrite (np_get_nat s (i - 1)%nat b Hb). simpl.
    rewrite np_set_nat by lia.
    eexists. split; [done|]. split; [by rewrite length_insert|].
    rewrite take_S_insert by lia. rewrite Hto.
    symmetry. apply take_S_r.
    replace i with (S (i - 1)) at 1 by lia.
    apply gaps_lookup_S; [done|].
    by replace (S (i - 1)) with i by lia.
  - simpl.
    destruct (lookup_lt_is_Some_2 s (n - 1)%nat) as [b Hb]; [lia|].
    replace (Z.of_nat n - 1)%Z with (Z.of_nat (n - 1)) by lia.
    rewrite (np_get_nat s (n - 1)%nat b Hb). simpl.
    rewrite np_set_nat by lia. f_equal.
    assert (length (gaps s) = S n) as Hg by (rewrite gaps_length; [lia|done]).
    rewrite <- (firstn_all (<[n:=(1 - b)%Q]> o)), length_insert, Hlo.
    rewrite take_S_insert by lia. rewrite Hto.
    rewrite <- (firstn_all (gaps s)) at 2. rewrite Hg.
    symmetry. apply take_S_r.
    rewrite <- Hlen at 1. apply gaps_lookup_last. by rewrite Hlen.
Qed.

(** [_probvec_cpu] fills every row of an [out] of matching shape: row [i]
    of the result is the gaps of the sorted row [i] of [r]. *)
Lemma _probvec_cpu_gaps (r out : list (list Q)) (cols : nat) :
  Forall (fun row => length row = cols) r ->
  (0 < cols)%nat ->
  length out = length r ->
  Forall (fun row => length row = S cols) out ->
  _probvec_cpu r out = Ok (map (fun row => gaps (np_sort row)) r).
Proof.
  intros Hr Hcols Hlen Hout. unfold _probvec_cpu.
  destruct (for_range_inv
    (fun i o => length o = length r
                /\ take i o = map (fun row => gaps (np_sort row)) (take i r)
                /\ drop i o = drop i out)
    (fun i out0 =>
       ri ← np_get r (Z.of_nat i);
       outi ← np_get out0 (Z.of_nat i);
       outi' ← _probvec ri outi;
       np_set out0 (Z.of_nat i) outi')
    0%nat (length r) out) as (o & -> & Hlo & Hto & _).
  - lia.
  - done.
  - intros i o Hi (Hlo & Hto & Hdo).
    destruct (lookup_lt_is_Some_2 r i) as [ri Hri]; [lia|].
    destruct (lookup_lt_is_Some_2 o i) as [oi Hoi]; [lia|].
    rewrite (np_get_nat r i ri Hri). simpl.
    rewrite (np_get_nat o i oi Hoi). simpl.
    assert (length ri = cols) as Hlri.
    { by eapply (proj1 (Forall_lookup _ r) Hr). }
    assert (length oi = S cols) as Hloi.
    { assert (out !! i = Some oi) as Hoi'.
      { rewrite <- (Nat.add_0_r i), <- lookup_drop, <- Hdo, lookup_drop.
        by rewrite Nat.add_0_r. }
      by eapply (proj1 (Forall_lookup _ out) Hout). }
    rewrite _probvec_gaps; [|destruct ri; simpl in *; [lia|done]|lia].
    simpl. rewrite np_set_nat by lia.
    eexists. split; [done|]. split; [by rewrite length_insert|]. split.
    + rewrite take_S_insert by lia.
      rewrite (take_S_r r i ri Hri), map_app, Hto. done.
    + rewrite drop_insert_lt by lia.
      rewrite <- (Nat.add_1_r i), <- !drop_drop. by rewrite Hdo.
  - f_equal. rewrite <- (firstn_all o), Hlo, Hto. by rewrite firstn_all.
Qed.

(** ** Generators and the world *)

Lemma uniforms_length (g : Generator) (n : nat) : length (uniforms g n) = n.
Proof. unfold uniforms. by rewrite length_map, length_seq. Qed.

Lemma uniforms_lookup (g : Generator) (n i : nat) :
  (i < n)%nat -> uniforms g n !! i = Some (stream g (pos g + i)%nat).
Proof.
  intros Hi. unfold uniforms.
  change (map ?f ?l) with (f <$> l).
  rewrite list_lookup_fmap, lookup_seq_lt by done. done.
Qed.

Lemma uniforms_uniform01 (g : Generator) (n : nat) :
  uniform01 (stream g) ->
  Forall (fun x => (0 <= x)%Q /\ (x < 1)%Q) (uniforms g n).
Proof.
  intros Hu. unfold uniforms. apply Forall_forall. intros x Hx.
  apply list_elem_of_In, in_map_iff in Hx. destruct Hx as (i & <- & _). apply Hu.
Qed.

Lemma reshape_length {A : Type} (rows cols : nat) (flat : list A) :
  length (reshape rows cols flat) = rows.
Proof. unfold reshape. by rewrite length_map, length_seq. Qed.

Lemma reshape_row_length {A : Type} (rows cols : nat) (flat : list A) :
  length flat = (rows * cols)%nat ->
  Forall (fun row => length row = cols) (reshape rows cols flat).
Proof.
  intros Hflat. apply Forall_forall. intros row Hrow.
  apply list_elem_of_In, in_map_iff in Hrow. destruct Hrow as (i & <- & Hi).
  apply in_seq in Hi. rewrite length_take, length_drop, Hflat. nia.
Qed.

Lemma reshape_Forall {A : Type} (P : A -> Prop) (rows cols : nat) (flat : list A) :
  Forall P flat -> Forall (Forall P) (reshape rows cols flat).
Proof.
  intros HP. apply Forall_forall. intros row Hrow.
  apply list_elem_of_In, in_map_iff in Hrow. destruct Hrow as (i & <- & _).
  by apply Forall_take, Forall_drop.
Qed.

Lemma pos_sum_alloc (h : list Generator) (g : Generator) :
  pos g = 0%nat ->
  foldr (fun g acc => (pos g + acc)%nat) 0%nat (h ++ [g])
  = foldr (fun g acc => (pos g + acc)%nat) 0%nat h.
Proof. intros Hg. induction h as [|g' h IH]; simpl; [lia|]. by rewrite IH. Qed.

Lemma pos_sum_advance (h : list Generator) :
  forall (ref : nat) (g : Generator) (n : nat),
    h !! ref = Some g ->
    foldr (fun g acc => (pos g + acc)%nat) 0%nat (<[ref := advance g n]> h)
    = (foldr (fun g acc => (pos g + acc)%nat) 0%nat h + n)%nat.
Proof.
  induction h as [|g' h IH]; intros ref g n Hg; [done|].
  destruct ref as [|ref]; simpl in *.
  - injection Hg as ->. lia.
  - rewrite (IH ref g n Hg). lia.
Qed.

(** Normalising a well-formed [random_state] returns a reference to the
    generator it denotes, and draws nothing. *)
Lemma check_random_state_source (rs : random_state_arg) (w : World) (g : Generator) :
  source rs w = Some g ->
  exists (ref : nat) (w1 : World),
    check_random_state rs w = (Ok ref, w1)
    /\ heap w1 !! ref = Some g
    /\ draws_total w1 = draws_total w.
Proof.
  destruct rs as [|s|ref|repr]; simpl; intros Hg.
  - injection Hg as <-. eexists _, _. split; [done|]. simpl. split.
    + by rewrite lookup_app_r, Nat.sub_diag.
    + unfold draws_total. simpl. by rewrite pos_sum_alloc.
  - injection Hg as <-. eexists _, _. split; [done|]. simpl. split.
    + by rewrite lookup_app_r, Nat.sub_diag.
    + unfold draws_total. simpl. by rewrite pos_sum_alloc.
  - rewrite Hg. eexists _, _. split; [done|]. done.
  - done.
Qed.

(** A [random_state] that denotes no generator is rejected, and the
    world is left as it was. *)
Lemma check_random_state_reject (rs : random_state_arg) (w : World) :
  source rs w = None ->
  exists e : exn, check_random_state rs w = (Raise e, w).
Proof.
  destruct rs as [|s|ref|repr]; simpl; intros Hg; try done.
  - rewrite Hg. by eexists.
  - by eexists.
Qed.

Lemma random_sample_draws (ref : nat) (size : Z) (w : World) (g : Generator) :
  (0 <= size)%Z -> heap w !! ref = Some g ->
  exists w' : World,
    random_sample ref size w = (Ok (uniforms g (Z.to_nat size)), w')
    /\ draws_total w' = (draws_total w + Z.to_nat size)%nat.
Proof.
  intros Hsize Hg. unfold random_sample.
  destruct (Z.ltb_spec size 0); [lia|]. rewrite Hg.
  eexists. split; [done|]. unfold draws_total. simpl.
  rewrite (pos_sum_advance _ _ _ _ Hg). lia.
Qed.

Lemma random_sample2_draws (ref : nat) (rows cols : Z) (w : World) (g : Generator) :
  (0 <= rows)%Z -> (0 <= cols)%Z -> heap w !! ref = Some g ->
  exists w' : World,
    random_sample2 ref rows cols w
    = (Ok (reshape (Z.to_nat rows) (Z.to_nat cols)
             (uniforms g (Z.to_nat rows * Z.to_nat cols))), w')
    /\ draws_total w' = (draws_total w + Z.to_nat rows * Z.to_nat cols)%nat.
Proof.
  intros Hrows Hcols Hg. unfold random_sample2.
  destruct (Z.ltb_spec rows 0); [lia|].
  destruct (Z.ltb_spec cols 0); [lia|]. simpl. rewrite Hg.
  eexists. split; [done|]. unfold draws_total. simpl.
  rewrite (pos_sum_advance _ _ _ _ Hg). lia.
Qed.

(** ** probvec *)

(** The general branch ([k >= 2]) in closed form: [m * (k - 1)] variates
    are taken from the generator that [random_state] denotes, cut into [m]
    rows, and each row is replaced by the gaps of its sorted values. *)
Lemma probvec_general (m k : Z) (rs : random_state_arg) (w : World) (g : Generator) :
  (0 <= m)%Z -> (2 <= k)%Z -> source rs w = Some g ->
  exists w' : World,
    probvec m k rs w
    = (Ok (map (fun row => gaps (np_sort row))
             (reshape (Z.to_nat m) (Z.to_nat (k - 1))
                (uniforms g (Z.to_nat m * Z.to_nat (k - 1))))), w')
    /\ draws_total w' = (draws_total w + Z.to_nat m * Z.to_nat (k - 1))%nat.
Proof.
  intros Hm Hk Hg. unfold probvec.
  destruct (Z.eqb_spec k 1); [lia|].
  destruct (check_random_state_source rs w g Hg)
    as (ref & w1 & Hcheck & Href & Hd1).
  destruct (random_sample2_draws ref m (k - 1) w1 g) as (w2 & Hrand & Hd2);
    [lia|lia|done|].
  unfold mbind, M_bind. rewrite Hcheck, Hrand.
  unfold lift, np_empty2.
  destruct (Z.ltb_spec m 0); [lia|]. destruct (Z.ltb_spec k 0); [lia|]. simpl.
  exists w2. split; [|lia]. f_equal.
  apply (_probvec_cpu_gaps _ _ (Z.to_nat (k - 1))).
  - apply reshape_row_length. by rewrite uniforms_length.
  - lia.
  - by rewrite length_replicate, reshape_length.
  - apply Forall_replicate. rewrite length_replicate. lia.
Qed.

(** The special case [k = 1]: the all-ones matrix, the world untouched,
    [random_state] never looked at. *)
Lemma probvec_k1 (m : Z) (rs : random_state_arg) (w : World) :
  (0 <= m)%Z ->
  probvec m 1 rs w = (Ok (replicate (Z.to_nat m) [1%Q]), w).
Proof.
  intros Hm. unfold probvec, lift, np_ones. simpl.
  destruct (Z.ltb_spec m 0); [lia|]. done.
Qed.

(** C1: for every [m >= 0] and [k >= 1], when [random_state] denotes a
    generator whose variates lie in [[0, 1)], [probvec(m, k, random_state)]
    returns a matrix of shape [(m, k)] (m rows of length k) in which every
    entry is non-negative and every row sums to 1, in exact rational
    arithmetic. *)
Theorem probvec_rows_are_probability_vectors
    (m k : Z) (rs : random_state_arg) (w : World) (g : Generator) :
  (0 <= m)%Z -> (1 <= k)%Z ->
  source rs w = Some g -> uniform01 (stream g) ->
  exists (x : list (list Q)) (w' : World),
    probvec m k rs w = (Ok x, w')
    /\ length x = Z.to_nat m
    /\ Forall (fun row => length row = Z.to_nat k /\ probability_vector row) x.
Proof.
  intros Hm Hk Hg Hu.
  destruct (Z.eq_dec k 1%Z) as [->|Hk1].
  - eexists _, w. split; [by apply probvec_k1|].
    split; [by rewrite length_replicate|].
    apply Forall_replicate. split; [done|]. split.
    + repeat constructor. done.
    + unfold Qsum. simpl. ring.
  - destruct (probvec_general m k rs w g) as (w' & Hp & _); [lia|lia|done|].
    eexists _, w'. split; [exact Hp|].
    split; [by rewrite length_map, reshape_length|].
    apply Forall_forall. intros row Hrow.
    apply list_elem_of_In, in_map_iff in Hrow. destruct Hrow as (r & <- & Hr).
    apply list_elem_of_In in Hr.
    assert (length r = Z.to_nat (k - 1)) as Hlr.
    { pose proof (reshape_row_length (Z.to_nat m) (Z.to_nat (k - 1)) _
                    (uniforms_length g (Z.to_nat m * Z.to_nat (k - 1)))) as HF.
      rewrite Forall_forall in HF. by apply HF. }
    assert (Forall (fun x => (0 <= x)%Q /\ (x < 1)%Q) r) as Hur.
    { pose proof (reshape_Forall _ (Z.to_nat m) (Z.to_nat (k - 1)) _
                    (uniforms_uniform01 g (Z.to_nat m * Z.to_nat (k - 1)) Hu)) as HF.
      rewrite Forall_forall in HF. by apply HF. }
    assert (np_sort r <> []) as Hne.
    { intros E. pose proof (np_sort_length r) as Hl. rewrite E in Hl.
      simpl in Hl. lia. }
    split; [|split].
    + rewrite gaps_length, np_sort_length by done. lia.
    + apply gaps_nonneg; [apply np_sort_Sorted|]. by apply np_sort_Forall.
    + by apply Qsum_gaps.
Qed.

(** C6: [probvec(m, 1, random_state)] returns the [m] by 1 matrix of ones
    and consumes no variate from any generator (the world is unchanged);
    for [k >= 2] (and a [random_state] that denotes a generator) it
    consumes exactly [m * (k - 1)] variates. *)
Theorem probvec_draw_count (m : Z) (rs : random_state_arg) (w : World) :
  (0 <= m)%Z ->
  (exists w' : World,
      probvec m 1 rs w = (Ok (replicate (Z.to_nat m) [1%Q]), w')
      /\ w' = w /\ draws_total w' = draws_total w)
  /\ (forall (k : Z) (g : Generator),
        (2 <= k)%Z -> source rs w = Some g ->
        exists (x : list (list Q)) (w' : World),
          probvec m k rs w = (Ok x, w')
          /\ (Z.of_nat (draws_total w') - Z.of_nat (draws_total w)
              = m * (k - 1))%Z).
Proof.
  intros Hm. split.
  - exists w. split; [by apply probvec_k1|done].
  - intros k g Hk Hg.
    destruct (probvec_general m k rs w g) as (w' & Hp & Hd); [lia|lia|done|].
    eexists _, w'. split; [exact Hp|]. rewrite Hd. nia.
Qed.

(** C10: with [k = 1], [probvec] returns before normalising or
    validating [random_state]: for every [m >= 0] and every
    [random_state], also one that the normalisation rejects, it returns
    the all-ones [m] by 1 matrix and does not raise. *)
Theorem probvec_k1_ignores_random_state (m : Z) (rs : random_state_arg) (w : World) :
  (0 <= m)%Z ->
  probvec m 1 rs w = (Ok (replicate (Z.to_nat m) [1%Q]), w)
  /\ (source rs w = None ->
      (exists e : exn, check_random_state rs w = (Raise e, w))
      /\ fst (probvec m 1 rs w) = Ok (replicate (Z.to_nat m) [1%Q])).
Proof.
  intros Hm. split; [by apply probvec_k1|].
  intros Hrs. split; [by apply check_random_state_reject|].
  by rewrite probvec_k1.
Qed.

(** With an integer seed the outcome of [probvec] (the matrix, or the
    exception) is a function of the arguments alone: it is the same in any
    two worlds. *)
Lemma probvec_seeded_outcome (s m k : Z) (w1 w2 : World) :
  fst (probvec m k (RS_Int s) w1) = fst (probvec m k (RS_Int s) w2).
Proof.
  unfold probvec. destruct (k =? 1)%Z; [done|].
  unfold mbind, M_bind. simpl. unfold random_sample2.
  destruct ((m <? 0) || (k - 1 <? 0))%Z; [done|]. simpl.
  rewrite !lookup_app_r, !Nat.sub_diag by done. simpl.
  unfold lift. destruct (np_empty2 uninit_float m k); done.
Qed.

(** ** Sampling without replacement *)

(** [floor(r * c)] for [r] in [[0, 1)] and a positive integer [c] is an
    index in [[0, c)]. *)
Lemma Qfloor_scale (q : Q) (c : Z) :
  (0 <= q)%Q -> (q < 1)%Q -> (0 < c)%Z ->
  (0 <= Qfloor (q * inject_Z c) < c)%Z.
Proof.
  intros H0 H1 Hc.
  assert (0 < inject_Z c)%Q as Hc' by (change 0%Q with (inject_Z 0); by rewrite <- Zlt_Qlt).
  split.
  - change 0%Z with (Qfloor 0). apply Qfloor_resp_le.
    apply Qmult_le_0_compat; [done|]. by apply Qlt_le_weak.
  - rewrite Zlt_Qlt. eapply Qle_lt_trans; [apply Qfloor_le|].
    rewrite <- (Qmult_1_l (inject_Z c)) at 2.
    by apply Qmult_lt_compat_r.
Qed.

Lemma insert_Permutation {A : Type} (l : list A) :
  forall (i : nat) (v x : A),
    l !! i = Some v -> v :: <[i:=x]> l ≡ₚ x :: l.
Proof.
  induction l as [|a l IH]; intros i v x Hv; [done|].
  destruct i as [|i]; simpl in *.
  - injection Hv as ->. apply perm_swap.
  - rewrite perm_swap, (IH i v x Hv). apply perm_swap.
Qed.

(** One step of the pool: taking the value at [i] out of the first [p + 1]
    slots and moving the value of slot [p] into slot [i] leaves, in the
    first [p] slots, exactly the values that were not taken. *)
Lemma pool_step {A : Type} (pool : list A) (p i : nat) (v l : A) :
  (i <= p)%nat -> pool !! i = Some v -> pool !! p = Some l ->
  v :: take p (<[i:=l]> pool) ≡ₚ take (S p) pool.
Proof.
  intros Hi Hv Hl. rewrite (take_S_r pool p l Hl).
  destruct (decide (i = p)) as [->|Hne].
  - rewrite take_insert_ge by done.
    assert (v = l) as -> by congruence. apply Permutation_cons_append.
  - rewrite take_insert_lt by lia.
    rewrite (insert_Permutation (take p pool) i v l).
    + apply Permutation_cons_append.
    + rewrite lookup_take. destruct (decide (i < p)%nat); [done|lia].
Qed.

Lemma np_arange_length (n : Z) : length (np_arange n) = Z.to_nat n.
Proof. unfold np_arange. by rewrite length_map, length_seq. Qed.

Lemma np_arange_elem_of (n x : Z) : x ∈ np_arange n <-> (0 <= x < n)%Z.
Proof.
  unfold np_arange. change (map ?f ?l) with (f <$> l).
  rewrite list_elem_of_fmap. split.
  - intros (i & -> & Hi). apply elem_of_seq in Hi. lia.
  - intros Hx. exists (Z.to_nat x). split; [lia|]. apply elem_of_seq. lia.
Qed.

Lemma np_arange_NoDup (n : Z) : NoDup (np_arange n).
Proof.
  unfold np_arange. change (map ?f ?l) with (f <$> l).
  apply NoDup_fmap_2; [|apply NoDup_seq].
  intros i j. apply Nat2Z.inj.
Qed.

(** A single trial on [k <= n] variates in [[0, 1)] does not raise; it
    writes every cell of its output, and the output followed by what is left
    in the live part of the pool is a rearrangement of [0, ..., n-1]. *)
Lemma single_trial_permutation (n : Z) (r : list Q) :
  (0 < n)%Z -> (Z.of_nat (length r) <= n)%Z ->
  Forall (fun x => (0 <= x)%Q /\ (x < 1)%Q) r ->
  exists (out rest : list Z),
    _sample_without_replacement_single n r = Ok out
    /\ length out = length r
    /\ length rest = (Z.to_nat n - length r)%nat
    /\ out ++ rest ≡ₚ np_arange n.
Proof.
  intros Hn Hk Hr. unfold _sample_without_replacement_single.
  set (k := length r) in *. set (N := Z.to_nat n).
  unfold np_empty. destruct (Z.ltb_spec (Z.of_nat k) 0); [lia|].
  cbn [mbind res_bind]. rewrite Nat2Z.id.
  match goal with
  | |- context [for_range 0 k ?body ?s] =>
      destruct (for_range_inv
        (fun j (st : list Z * list Z) =>
           length st.1 = k /\ length st.2 = N
           /\ take j st.1 ++ take (N - j) st.2 ≡ₚ np_arange n)
        body 0%nat k s) as ([out pool] & -> & Hlo & Hlp & Hperm)
  end.
  - lia.
  - simpl. rewrite length_replicate, np_arange_length. split; [done|]. split; [done|].
    rewrite Nat.sub_0_r. subst N.
    rewrite <- (np_arange_length n), firstn_all. done.
  - intros j [out pool] Hj (Hlo & Hlp & Hperm). simpl in Hlo, Hlp, Hperm.
    destruct (lookup_lt_is_Some_2 r j) as [rj Hrj]; [subst k; lia|].
    rewrite (np_get_nat r j rj Hrj). cbn [mbind res_bind].
    assert ((0 <= rj)%Q /\ (rj < 1)%Q) as [Hrj0 Hrj1].
    { by eapply (proj1 (Forall_lookup _ r) Hr). }
    destruct (Qfloor_scale rj (n - Z.of_nat j)) as [Hidx0 Hidx1]; [done|done|lia|].
    set (idx := Qfloor (rj * inject_Z (n - Z.of_nat j))) in *.
    set (i := Z.to_nat idx).
    replace idx with (Z.of_nat i) by lia.
    destruct (lookup_lt_is_Some_2 pool i) as [v Hv]; [lia|].
    rewrite (np_get_nat pool i v Hv). cbn [mbind res_bind].
    rewrite np_set_nat by lia. cbn [mbind res_bind].
    remember (N - j - 1)%nat as p eqn:Hp.
    destruct (lookup_lt_is_Some_2 pool p) as [l Hl]; [lia|].
    replace (n - Z.of_nat j - 1)%Z with (Z.of_nat p) by lia.
    rewrite (np_get_nat pool p l Hl). cbn [mbind res_bind].
    rewrite np_set_nat by lia. cbn [mbind res_bind].
    eexists. split; [done|]. simpl.
    split; [by rewrite length_insert|]. split; [by rewrite length_insert|].
    rewrite take_S_insert by lia.
    rewrite <- Hperm, <- (assoc_L (++)). apply Permutation_app_head. simpl.
    replace (N - S j)%nat with p by lia.
    replace (N - j)%nat with (S p) by lia.
    apply pool_step; [lia|done|done].
  - simpl in *. exists out, (take (N - k) pool). split; [done|]. split; [done|].
    split; [rewrite length_take; lia|].
    rewrite <- (firstn_all out), Hlo. done.
Qed.

(** A single trial returns [k] mutually distinct integers of [[0, n)];
    when [k = n], a permutation of [0, ..., n-1]. *)
Lemma single_trial_distinct (n : Z) (r : list Q) :
  (0 < n)%Z -> (Z.of_nat (length r) <= n)%Z ->
  Forall (fun x => (0 <= x)%Q /\ (x < 1)%Q) r ->
  exists out : list Z,
    _sample_without_replacement_single n r = Ok out
    /\ length out = length r
    /\ NoDup out
    /\ in_range n out
    /\ (Z.of_nat (length r) = n -> out ≡ₚ np_arange n).
Proof.
  intros Hn Hk Hr.
  destruct (single_trial_permutation n r Hn Hk Hr)
    as (out & rest & Hrun & Hlen & Hrest & Hperm).
  exists out. split; [done|]. split; [done|].
  pose proof (np_arange_NoDup n) as Hnd. rewrite <- Hperm in Hnd.
  apply NoDup_app in Hnd as (Hnd & _ & _).
  split; [done|]. split.
  - apply Forall_forall. intros x Hx. apply np_arange_elem_of.
    rewrite <- Hperm. apply elem_of_app. by left.
  - intros Hfull. assert (rest = []) as ->.
    { apply length_zero_iff_nil. lia. }
    by rewrite app_nil_r in Hperm.
Qed.

(** The two guards of [sample_without_replacement] pass exactly when
    [0 < n] and [k <= n]; what follows them, for a [random_state] that
    denotes a generator [g], runs on the variates of [g]. *)
Lemma sample_flat_run (n k : Z) (rs : random_state_arg) (w : World) (g : Generator) :
  (0 < n)%Z -> (0 <= k <= n)%Z -> source rs w = Some g ->
  exists w' : World,
    sample_without_replacement n k None rs w
    = (match _sample_without_replacement_single n (uniforms g (Z.to_nat k)) with
       | Ok out => Ok (Flat out)
       | Raise e => Raise e
       end, w')
    /\ draws_total w' = (draws_total w + Z.to_nat k)%nat.
Proof.
  intros Hn Hk Hg. unfold sample_without_replacement.
  destruct (Z.leb_spec n 0); [lia|].
  rewrite Z.gtb_ltb. destruct (Z.ltb_spec n k); [lia|].
  destruct (check_random_state_source rs w g Hg) as (ref & w1 & Hcheck & Href & Hd1).
  destruct (random_sample_draws ref k w1 g) as (w2 & Hrand & Hd2); [lia|done|].
  unfold mbind, M_bind. rewrite Hcheck, Hrand. unfold lift.
  exists w2. split; [|lia].
  by destruct (_sample_without_replacement_single n (uniforms g (Z.to_nat k))).
Qed.

Lemma sample_trials_run (n k t : Z) (rs : random_state_arg) (w : World) (g : Generator) :
  (0 < n)%Z -> (0 <= k <= n)%Z -> (0 <= t)%Z -> source rs w = Some g ->
  exists w' : World,
    sample_without_replacement n k (Some t) rs w
    = (match comprehension (_sample_without_replacement_single n)
               (reshape (Z.to_nat t) (Z.to_nat k)
                  (uniforms g (Z.to_nat t * Z.to_nat k))) with
       | Ok outs => Ok (Trials outs)
       | Raise e => Raise e
       end, w')
    /\ draws_total w' = (draws_total w + Z.to_nat t * Z.to_nat k)%nat.
Proof.
  intros Hn Hk Ht Hg. unfold sample_without_replacement.
  destruct (Z.leb_spec n 0); [lia|].
  rewrite Z.gtb_ltb. destruct (Z.ltb_spec n k); [lia|].
  destruct (check_random_state_source rs w g Hg) as (ref & w1 & Hcheck & Href & Hd1).
  destruct (random_sample2_draws ref t k w1 g) as (w2 & Hrand & Hd2); [lia|lia|done|].
  unfold mbind, M_bind. rewrite Hcheck, Hrand. unfold lift.
  exists w2. split; [|lia].
  by destruct (comprehension _ _).
Qed.

(** Every row of a [(t, k)] batch of variates in [[0, 1)], [k <= n], is a
    trial that returns. *)
Lemma batch_trials_return (n k t : Z) (g : Generator) :
  (0 < n)%Z -> (0 <= k <= n)%Z -> uniform01 (stream g) ->
  exists outs : list (list Z),
    comprehension (_sample_without_replacement_single n)
      (reshape (Z.to_nat t) (Z.to_nat k) (uniforms g (Z.to_nat t * Z.to_nat k)))
    = Ok outs
    /\ Forall2 (fun trial_r row => _sample_without_replacement_single n trial_r = Ok row)
         (reshape (Z.to_nat t) (Z.to_nat k) (uniforms g (Z.to_nat t * Z.to_nat k)))
         outs.
Proof.
  intros Hn Hk Hu. apply comprehension_Forall2.
  set (batch := reshape _ _ _).
  assert (Forall (fun row => length row = Z.to_nat k) batch) as Hrows.
  { apply reshape_row_length. by rewrite uniforms_length. }
  assert (Forall (Forall (fun x => (0 <= x)%Q /\ (x < 1)%Q)) batch) as Hunif.
  { apply reshape_Forall. by apply uniforms_uniform01. }
  rewrite Forall_forall in Hrows, Hunif. apply Forall_forall. intros r Hr.
  destruct (single_trial_distinct n r) as (out & Hout & _); [done| |by apply Hunif|].
  - rewrite (Hrows r Hr). lia.
  - by exists out.
Qed.

Lemma sample_flat_returns (n k : Z) (rs : random_state_arg) (w : World) (g : Generator) :
  (0 < n)%Z -> (0 <= k <= n)%Z -> source rs w = Some g -> uniform01 (stream g) ->
  exists (out : list Z) (w' : World),
    sample_without_replacement n k None rs w = (Ok (Flat out), w').
Proof.
  intros Hn Hk Hg Hu.
  destruct (sample_flat_run n k rs w g Hn Hk Hg) as (w' & Hrun & _).
  destruct (single_trial_distinct n (uniforms g (Z.to_nat k))) as (out & Hout & _).
  - done.
  - rewrite uniforms_length. lia.
  - by apply uniforms_uniform01.
  - rewrite Hout in Hrun. by exists out, w'.
Qed.

Lemma sample_trials_returns (n k t : Z) (rs : random_state_arg) (w : World) (g : Generator) :
  (0 < n)%Z -> (0 <= k <= n)%Z -> (0 <= t)%Z ->
  source rs w = Some g -> uniform01 (stream g) ->
  exists (outs : list (list Z)) (w' : World),
    sample_without_replacement n k (Some t) rs w = (Ok (Trials outs), w').
Proof.
  intros Hn Hk Ht Hg Hu.
  destruct (sample_trials_run n k t rs w g Hn Hk Ht Hg) as (w' & Hrun & _).
  destruct (batch_trials_return n k t g Hn Hk Hu) as (outs & Hcomp & _).
  rewrite Hcomp in Hrun. by exists outs, w'.
Qed.

(** C2: for every [n > 0] and [0 <= k <= n], and every [k] variates in
    [[0, 1)] supplied by the random source, [sample_without_replacement(n, k)]
    returns exactly [k] mutually distinct integers, each in [[0, n)]; when
    [k = n] the result is a permutation of [0, ..., n-1]. *)
Theorem sample_without_replacement_distinct
    (n k : Z) (rs : random_state_arg) (w : World) (g : Generator) :
  (0 < n)%Z -> (0 <= k <= n)%Z ->
  source rs w = Some g -> uniform01 (stream g) ->
  exists (out : list Z) (w' : World),
    sample_without_replacement n k None rs w = (Ok (Flat out), w')
    /\ Z.of_nat (length out) = k
    /\ NoDup out
    /\ in_range n out
    /\ (k = n -> out ≡ₚ np_arange n).
Proof.
  intros Hn Hk Hg Hu.
  destruct (sample_flat_run n k rs w g Hn Hk Hg) as (w' & Hrun & _).
  destruct (single_trial_distinct n (uniforms g (Z.to_nat k)))
    as (out & Hout & Hlen & Hnd & Hrange & Hfull).
  - done.
  - rewrite uniforms_length. lia.
  - by apply uniforms_uniform01.
  - rewrite uniforms_length in Hlen, Hfull. rewrite Hout in Hrun.
    exists out, w'. split; [done|]. split; [lia|]. split; [done|]. split; [done|].
    intros ->. apply Hfull. lia.
Qed.

(** C5: for every [n > 0], [0 <= k <= n] and [t >= 0],
    [sample_without_replacement(n, k, num_trials=t)] returns [t] rows in
    trial order; row [i] is the result of the single-trial algorithm on row
    [i] of the [(t, k)] batch of variates, and consists of [k] distinct
    integers of [[0, n)]. *)
Theorem sample_without_replacement_trials
    (n k t : Z) (rs : random_state_arg) (w : World) (g : Generator) :
  (0 < n)%Z -> (0 <= k <= n)%Z -> (0 <= t)%Z ->
  source rs w = Some g -> uniform01 (stream g) ->
  exists (outs : list (list Z)) (w' : World),
    sample_without_replacement n k (Some t) rs w = (Ok (Trials outs), w')
    /\ Z.of_nat (length outs) = t
    /\ Forall2
         (fun (trial_r : list Q) (row : list Z) =>
            _sample_without_replacement_single n trial_r = Ok row
            /\ Z.of_nat (length row) = k
            /\ NoDup row
            /\ in_range n row)
         (reshape (Z.to_nat t) (Z.to_nat k)
            (uniforms g (Z.to_nat t * Z.to_nat k)))
         outs.
Proof.
  intros Hn Hk Ht Hg Hu.
  destruct (sample_trials_run n k t rs w g Hn Hk Ht Hg) as (w' & Hrun & _).
  set (batch := reshape (Z.to_nat t) (Z.to_nat k)
                  (uniforms g (Z.to_nat t * Z.to_nat k))) in *.
  assert (Forall (fun row => length row = Z.to_nat k) batch) as Hrows.
  { apply reshape_row_length. by rewrite uniforms_length. }
  assert (Forall (Forall (fun x => (0 <= x)%Q /\ (x < 1)%Q)) batch) as Hunif.
  { apply reshape_Forall. by apply uniforms_uniform01. }
  destruct (batch_trials_return n k t g Hn Hk Hu) as (outs & Hcomp & HF2).
  fold batch in Hcomp, HF2.
  rewrite Hcomp in Hrun. exists outs, w'. split; [done|]. split.
  - rewrite <- (Forall2_length _ _ _ HF2). subst batch.
    rewrite reshape_length. lia.
  - apply Forall2_same_length_lookup. split; [by eapply Forall2_length|].
    intros i r row Hr Hrow.
    pose proof (Forall2_lookup_lr _ _ _ _ _ _ HF2 Hr Hrow) as Hrun_i.
    assert (length r = Z.to_nat k) as Hlr.
    { by eapply (proj1 (Forall_lookup _ batch) Hrows). }
    destruct (single_trial_distinct n r) as (out & Hout & Hlen & Hnd & Hrange & _).
    + done.
    + lia.
    + by eapply (proj1 (Forall_lookup _ batch) Hunif).
    + assert (out = row) as -> by congruence.
      split; [done|]. split; [lia|]. done.
Qed.

(** A violated precondition is reported before anything else happens:
    the exception carries the message of the failed check and the world is
    the one the call started in. *)
Lemma sample_rejects_n (n k : Z) (t : option Z) (rs : random_state_arg) (w : World) :
  (n <= 0)%Z ->
  sample_without_replacement n k t rs w
  = (Raise (ValueError "n must be greater than 0"), w).
Proof.
  intros Hn. unfold sample_without_replacement.
  destruct (Z.leb_spec n 0); [done|lia].
Qed.

Lemma sample_rejects_k (n k : Z) (t : option Z) (rs : random_state_arg) (w : World) :
  (0 < n)%Z -> (n < k)%Z ->
  sample_without_replacement n k t rs w
  = (Raise (ValueError "k must be smaller than or equal to n"), w).
Proof.
  intros Hn Hk. unfold sample_without_replacement.
  destruct (Z.leb_spec n 0); [lia|].
  rewrite Z.gtb_ltb. destruct (Z.ltb_spec n k); [done|lia].
Qed.

(** Past the two guards, a [random_state] that denotes no generator is
    rejected by the normalisation. *)
Lemma sample_rejects_random_state
    (n k : Z) (t : option Z) (rs : random_state_arg) (w : World) :
  (0 < n)%Z -> (k <= n)%Z -> source rs w = None ->
  exists e : exn, sample_without_replacement n k t rs w = (Raise e, w).
Proof.
  intros Hn Hk Hrs. unfold sample_without_replacement.
  destruct (Z.leb_spec n 0); [lia|].
  rewrite Z.gtb_ltb. destruct (Z.ltb_spec n k); [lia|].
  destruct (check_random_state_reject rs w Hrs) as (e & Hcheck).
  exists e. unfold mbind, M_bind. by rewrite Hcheck.
Qed.

(** Past the two guards and the normalisation, a negative [k] or a
    negative [num_trials] is rejected by the generator when it is asked for
    an array of that shape. *)
Lemma sample_rejects_negative
    (n k : Z) (t : option Z) (rs : random_state_arg) (w : World) (g : Generator) :
  (0 < n)%Z -> (k <= n)%Z -> source rs w = Some g ->
  (k < 0)%Z \/ (exists t' : Z, t = Some t' /\ (t' < 0)%Z) ->
  exists w' : World,
    sample_without_replacement n k t rs w = (Raise negative_dimensions, w').
Proof.
  intros Hn Hk Hg Hneg.
  destruct (check_random_state_source rs w g Hg) as (ref & w1 & Hcheck & _).
  exists w1. unfold sample_without_replacement, mbind, M_bind.
  destruct (Z.leb_spec n 0); [lia|].
  rewrite Z.gtb_ltb. destruct (Z.ltb_spec n k); [lia|]. rewrite Hcheck.
  destruct t as [t|]; [unfold random_sample2|unfold random_sample].
  - destruct Hneg as [Hk0|(t' & [= <-] & Ht)].
    + destruct (Z.ltb_spec k 0); [|lia]. by rewrite orb_true_r.
    + destruct (Z.ltb_spec t 0); [|lia]. done.
  - destruct Hneg as [Hk0|(t' & [=] & _)].
    destruct (Z.ltb_spec k 0); [|lia]. done.
Qed.

(** With an integer seed the outcome of [sample_without_replacement] is a
    function of the arguments alone. *)
Lemma sample_seeded_outcome (s n k : Z) (t : option Z) (w1 w2 : World) :
  fst (sample_without_replacement n k t (RS_Int s) w1)
  = fst (sample_without_replacement n k t (RS_Int s) w2).
Proof.
  unfold sample_without_replacement.
  destruct (n <=? 0)%Z; [done|]. destruct (k >? n)%Z; [done|].
  unfold mbind, M_bind. simpl. destruct t as [t|].
  - unfold random_sample2.
    destruct ((t <? 0) || (k <? 0))%Z; [done|]. simpl.
    rewrite !lookup_app_r, !Nat.sub_diag by done. simpl.
    unfold lift. by destruct (comprehension _ _).
  - unfold random_sample.
    destruct (k <? 0)%Z; [done|]. simpl.
    rewrite !lookup_app_r, !Nat.sub_diag by done. simpl.
    unfold lift. by destruct (_sample_without_replacement_single _ _).
Qed.

(** ** Shape of whatever is returned *)

(** Case analysis on the steps of a computation that is known to return. *)
Lemma bind_Ok {A B : Type} (f : A -> res B) (a : A) : Ok a ≫= f = f a.
Proof. reflexivity. Qed.

Lemma bind_Raise {A B : Type} (f : A -> res B) (e : exn) : Raise e ≫= f = Raise e.
Proof. reflexivity. Qed.

Ltac invert_bind H x E :=
  cbv beta in H;
  match type of H with
  | mbind _ ?c = Ok _ =>
      destruct c as [x|] eqn:E;
      [rewrite bind_Ok in H; cbv beta in H | by rewrite bind_Raise in H]
  end.

Lemma np_get_Ok {A : Type} (a : list A) (i : Z) (x : A) :
  np_get a i = Ok x -> x ∈ a.
Proof.
  unfold np_get. destruct (np_index (length a) i) as [j|]; [|done].
  destruct (a !! j) as [y|] eqn:Hy; [|done].
  intros [= <-]. by eapply list_elem_of_lookup_2.
Qed.

Lemma np_set_Ok {A : Type} (a a' : list A) (i : Z) (x : A) :
  np_set a i x = Ok a' -> exists j : nat, a' = <[j:=x]> a.
Proof.
  unfold np_set. destruct (np_index (length a) i) as [j|]; [|done].
  intros [= <-]. by exists j.
Qed.

Lemma for_range_preserves {St : Type} (P : St -> Prop)
    (body : nat -> St -> res St) (lo hi : nat) (s s' : St) :
  (forall i s s', body i s = Ok s' -> P s -> P s') ->
  for_range lo hi body s = Ok s' -> P s -> P s'.
Proof. intros Hstep. by apply for_each_preserves. Qed.

Lemma comprehension_Ok_Forall2 {A B : Type} (f : A -> res B) (xs : list A) :
  forall ys : list B,
    comprehension f xs = Ok ys -> Forall2 (fun x y => f x = Ok y) xs ys.
Proof.
  induction xs as [|x xs IH]; intros ys; simpl.
  - intros [= <-]. constructor.
  - destruct (f x) as [y|] eqn:Hy; cbn [mbind res_bind]; [|done].
    destruct (comprehension f xs) as [ys'|]; cbn [mbind res_bind]; [|done].
    intros [= <-]. constructor; [done|]. by apply IH.
Qed.

Lemma _probvec_Ok_length (r out out' : list Q) :
  _probvec r out = Ok out' -> length out' = length out.
Proof.
  unfold _probvec. intros H.
  invert_bind H r0 E0. invert_bind H o1 E1. invert_bind H o2 E2.
  invert_bind H rn1 E3.
  apply np_set_length in H. apply np_set_length in E1.
  rewrite H, <- E1.
  eapply (for_range_preserves (fun o => length o = length o1)); [|exact E2|done].
  intros i o o' Hb Ho. invert_bind Hb ri Ei. invert_bind Hb ri1 Ei1.
  apply np_set_length in Hb. congruence.
Qed.

Lemma _probvec_cpu_Ok_shape (r out out' : list (list Q)) (c : nat) :
  _probvec_cpu r out = Ok out' ->
  Forall (fun row => length row = c) out ->
  length out' = length out /\ Forall (fun row => length row = c) out'.
Proof.
  unfold _probvec_cpu. intros H Hout.
  eapply (for_range_preserves
            (fun o => length o = length out /\ Forall (fun row => length row = c) o));
    [|exact H|done].
  intros i o o' Hb [Hlo Ho].
  invert_bind Hb ri Ei. invert_bind Hb oi Eo. invert_bind Hb oi' Ep.
  pose proof (np_set_length _ _ _ _ Hb) as Hlen.
  apply np_set_Ok in Hb as [j ->]. split; [congruence|].
  apply Forall_insert; [done|].
  apply _probvec_Ok_length in Ep. rewrite Ep.
  apply np_get_Ok in Eo. rewrite Forall_forall in Ho. by apply Ho.
Qed.

Lemma single_trial_Ok_length (n : Z) (r : list Q) (out : list Z) :
  _sample_without_replacement_single n r = Ok out -> length out = length r.
Proof.
  unfold _sample_without_replacement_single. intros H.
  invert_bind H out0 E0. invert_bind H st E1.
  destruct st as [out' pool']. injection H as ->.
  unfold np_empty in E0. destruct (Z.of_nat (length r) <? 0)%Z; [done|].
  injection E0 as <-.
  assert (length (out, pool').1 = length r) as Hgoal; [|done].
  eapply (for_range_preserves
            (fun st : list Z * list Z => length st.1 = length r)); [|exact E1|].
  - intros j [o p0] [o' p0'] Hb Hst. simpl in *.
    invert_bind Hb rj Ej. invert_bind Hb v Ev. invert_bind Hb o1 Eo.
    invert_bind Hb l El. invert_bind Hb p1 Ep. injection Hb as <- <-.
    apply np_set_length in Eo. congruence.
  - simpl. by rewrite length_replicate, Nat2Z.id.
Qed.

Lemma random_sample_Ok_length (ref : nat) (size : Z) (w w' : World) (r : list Q) :
  random_sample ref size w = (Ok r, w') -> length r = Z.to_nat size.
Proof.
  unfold random_sample. destruct (size <? 0)%Z; [done|].
  destruct (heap w !! ref); [|done]. intros [= <- _]. apply uniforms_length.
Qed.

Lemma random_sample2_Ok_shape
    (ref : nat) (rows cols : Z) (w w' : World) (r : list (list Q)) :
  random_sample2 ref rows cols w = (Ok r, w') ->
  length r = Z.to_nat rows /\ Forall (fun row => length row = Z.to_nat cols) r.
Proof.
  unfold random_sample2. destruct ((rows <? 0) || (cols <? 0))%Z; [done|].
  destruct (heap w !! ref); [|done]. intros [= <- _]. split.
  - apply reshape_length.
  - apply reshape_row_length. apply uniforms_length.
Qed.

(** Whenever [probvec] returns, it returns all [m] rows, each of all [k]
    cells. *)
Lemma probvec_Ok_shape (m k : Z) (rs : random_state_arg) (w w' : World)
    (x : list (list Q)) :
  probvec m k rs w = (Ok x, w') ->
  length x = Z.to_nat m /\ Forall (fun row => length row = Z.to_nat k) x.
Proof.
  unfold probvec. destruct (k =? 1)%Z.
  - unfold lift, np_ones. destruct ((m <? 0) || (k <? 0))%Z; [done|].
    intros [= <- _]. split; [by rewrite length_replicate|].
    apply Forall_replicate. by rewrite length_replicate.
  - unfold mbind, M_bind.
    destruct (check_random_state rs w) as [[ref|e] w1]; [|done].
    destruct (random_sample2 ref m (k - 1) w1) as [[r|e] w2]; [|done].
    unfold lift, np_empty2. destruct ((m <? 0) || (k <? 0))%Z; [done|].
    intros [= Hcpu _].
    apply (_probvec_cpu_Ok_shape _ _ _ (Z.to_nat k)) in Hcpu.
    + by rewrite length_replicate in Hcpu.
    + apply Forall_replicate. by rewrite length_replicate.
Qed.

(** Whenever [sample_without_replacement] returns, it returns an array of
    the requested shape: [k] cells, or [num_trials] rows of [k] cells. *)
Lemma sample_Ok_shape (n k : Z) (t : option Z) (rs : random_state_arg)
    (w w' : World) (v : sample) :
  sample_without_replacement n k t rs w = (Ok v, w') ->
  match t, v with
  | None, Flat out => length out = Z.to_nat k
  | Some t, Trials outs =>
      length outs = Z.to_nat t
      /\ Forall (fun row => length row = Z.to_nat k) outs
  | _, _ => False
  end.
Proof.
  unfold sample_without_replacement.
  destruct (n <=? 0)%Z; [done|]. destruct (k >? n)%Z; [done|].
  unfold mbind, M_bind.
  destruct (check_random_state rs w) as [[ref|e] w1]; [|done].
  destruct t as [t|].
  - destruct (random_sample2 ref t k w1) as [[r|e] w2] eqn:Hr; [|done].
    unfold lift.
    destruct (comprehension _ r) as [outs|e] eqn:Hc; [|done].
    intros [= <- _].
    apply random_sample2_Ok_shape in Hr as [Hlen Hrows].
    apply comprehension_Ok_Forall2 in Hc.
    split; [by rewrite <- (Forall2_length _ _ _ Hc)|].
    apply Forall_forall. intros row Hrow.
    apply list_elem_of_lookup_1 in Hrow as [i Hi].
    destruct (Forall2_lookup_r _ _ _ _ _ Hc Hi) as (tr & Htr & Hrun).
    apply single_trial_Ok_length in Hrun. rewrite Hrun.
    by eapply (proj1 (Forall_lookup _ r) Hrows).
  - destruct (random_sample ref k w1) as [[r|e] w2] eqn:Hr; [|done].
    unfold lift.
    destruct (_sample_without_replacement_single n r) as [out|e] eqn:Hs; [|done].
    intros [= <- _].
    apply random_sample_Ok_length in Hr. apply single_trial_Ok_length in Hs.
    congruence.
Qed.

(** C3 (as amended): [sample_without_replacement] raises with the message
    "n must be greater than 0" when [n <= 0], and with the message "k must be
    smaller than or equal to n" when [n > 0] and [k > n].  Past these two
    guards it also raises when [random_state] denotes no generator (the
    normalisation rejects it) and when [k] or [num_trials] is negative (the
    array of variates cannot be allocated).  In every other case, that is
    [n > 0], [0 <= k <= n], [num_trials] None or non-negative and
    [random_state] denoting a generator of variates in [[0, 1)], it returns a
    result without raising. *)
Theorem sample_without_replacement_raises
    (n k : Z) (num_trials : option Z) (rs : random_state_arg) (w : World) :
  ((n <= 0)%Z ->
     sample_without_replacement n k num_trials rs w
     = (Raise (ValueError "n must be greater than 0"), w))
  /\ ((0 < n)%Z -> (n < k)%Z ->
        sample_without_replacement n k num_trials rs w
        = (Raise (ValueError "k must be smaller than or equal to n"), w))
  /\ ((0 < n)%Z -> (k <= n)%Z -> source rs w = None ->
      exists e : exn,
        sample_without_replacement n k num_trials rs w = (Raise e, w))
  /\ ((0 < n)%Z -> (k <= n)%Z ->
      (k < 0)%Z \/ (exists t : Z, num_trials = Some t /\ (t < 0)%Z) ->
      forall g : Generator,
        source rs w = Some g ->
        exists w' : World,
          sample_without_replacement n k num_trials rs w
          = (Raise negative_dimensions, w'))
  /\ ((0 < n)%Z -> (0 <= k <= n)%Z ->
      (forall t : Z, num_trials = Some t -> (0 <= t)%Z) ->
      forall g : Generator,
        source rs w = Some g -> uniform01 (stream g) ->
        exists (v : sample) (w' : World),
          sample_without_replacement n k num_trials rs w = (Ok v, w')).
Proof.
  split; [by apply sample_rejects_n|].
  split; [by apply sample_rejects_k|].
  split; [by apply sample_rejects_random_state|].
  split; [intros Hn Hk Hneg g Hg; by eapply sample_rejects_negative|].
  intros Hn Hk Ht g Hg Hu. destruct num_trials as [t|].
  - destruct (sample_trials_returns n k t rs w g)
      as (outs & w' & Hrun); try done. { by apply Ht. }
    by exists (Trials outs), w'.
  - destruct (sample_flat_returns n k rs w g)
      as (out & w' & Hrun); try done.
    by exists (Flat out), w'.
Qed.

(** C7: for every integer seed and identical arguments, two separate calls
    of [probvec] (resp. [sample_without_replacement]) with that seed as
    [random_state] produce identical outcomes, whatever the state of the
    world each call starts in. *)
Theorem seeded_calls_are_reproducible (s : Z) (w1 w2 : World) :
  (forall m k : Z,
      fst (probvec m k (RS_Int s) w1) = fst (probvec m k (RS_Int s) w2))
  /\ (forall (n k : Z) (num_trials : option Z),
        fst (sample_without_replacement n k num_trials (RS_Int s) w1)
        = fst (sample_without_replacement n k num_trials (RS_Int s) w2)).
Proof.
  split.
  - intros m k. apply probvec_seeded_outcome.
  - intros n k t. apply sample_seeded_outcome.
Qed.

(** ** draw *)

(** The array branch in closed form: one search per variate, in order. *)
Lemma draw_array (searchsorted : list Q -> Q -> Z) (cdf : list Q) (size : Z) (w : World) :
  (0 <= size)%Z ->
  draw searchsorted cdf (Size_Int size) w
  = (Ok (Array (map (searchsorted cdf) (uniforms (np_random w) (Z.to_nat size)))),
     MkWorld (advance (np_random w) (Z.to_nat size)) (heap w) (entropy w)).
Proof.
  intros Hsize. unfold draw, mbind, M_bind, np_random_random, lift, np_empty.
  destruct (Z.ltb_spec size 0); [lia|].
  set (n := Z.to_nat size). set (rs := uniforms (np_random w) n).
  match goal with
  | |- context [for_range 0 n ?body ?s0] =>
      destruct (for_range_inv
        (fun i (o : list Z) =>
           length o = n /\ take i o = map (searchsorted cdf) (take i rs))
        body 0%nat n s0) as (out & -> & Hlo & Hto)
  end.
  - lia.
  - split; [by rewrite length_replicate|done].
  - intros i o Hi [Hlo Hto].
    destruct (lookup_lt_is_Some_2 rs i) as [ri Hri];
      [subst rs; rewrite uniforms_length; lia|].
    rewrite (np_get_nat rs i ri Hri), bind_Ok, np_set_nat by lia.
    eexists. split; [done|]. split; [by rewrite length_insert|].
    rewrite take_S_insert by lia.
    by rewrite (take_S_r rs i ri Hri), map_app, Hto.
  - simpl. do 3 f_equal.
    rewrite <- (firstn_all out), Hlo, Hto.
    replace n with (length rs) by (subst rs; apply uniforms_length).
    by rewrite firstn_all.
Qed.

Lemma searchsorted_leftmost_least (cdf : list Q) (r : Q) :
  least_exceeding cdf r (searchsorted_leftmost cdf r).
Proof.
  induction cdf as [|c cdf (jn & Hj & Hle & Hbelow & Habove)]; simpl.
  - exists 0%nat. repeat split; [done|intros; lia|done].
  - destruct (Qle_bool c r) eqn:Hc.
    + apply Qle_bool_iff in Hc. exists (S jn).
      split; [lia|]. split; [simpl; lia|]. split.
      * intros [|i] x Hi Hx; simpl in Hx.
        -- by injection Hx as <-.
        -- apply (Hbelow i); [lia|done].
      * intros x Hx. by apply Habove.
    + exists 0%nat. split; [done|]. split; [simpl; lia|]. split; [intros; lia|].
      intros x [= <-]. apply Qnot_le_lt. intros Hle'.
      apply Qle_bool_iff in Hle'. congruence.
Qed.

(** C4: for an integer [size = s >= 0], [draw(cdf, size)] returns exactly
    [s] integers, the [i]-th being the insertion index into [cdf] of the
    [i]-th variate drawn from the module-level generator (the least index [j]
    with [cdf[j] > r_i]); with [size] None it draws one variate and returns
    its insertion index as a scalar. *)
Theorem draw_returns_insertion_indices (cdf : list Q) (w : World) :
  (forall s : Z, (0 <= s)%Z ->
     exists (out : list Z) (w' : World),
       draw searchsorted_leftmost cdf (Size_Int s) w = (Ok (Array out), w')
       /\ Z.of_nat (length out) = s
       /\ forall i : nat, (i < Z.to_nat s)%nat ->
            exists j : Z,
              out !! i = Some j
              /\ least_exceeding cdf
                   (stream (np_random w) (pos (np_random w) + i)%nat) j)
  /\ (exists (j : Z) (w' : World),
        draw searchsorted_leftmost cdf Size_None w = (Ok (Scalar j), w')
        /\ least_exceeding cdf (stream (np_random w) (pos (np_random w))) j
        /\ pos (np_random w') = S (pos (np_random w))).
Proof.
  split.
  - intros s Hs. eexists _, _. split; [by apply draw_array|].
    split; [rewrite length_map, uniforms_length; lia|].
    intros i Hi. eexists. split.
    + change (map ?f ?l) with (f <$> l).
      by rewrite list_lookup_fmap, uniforms_lookup.
    + apply searchsorted_leftmost_least.
  - eexists _, _. split; [reflexivity|]. split.
    + apply searchsorted_leftmost_least.
    + simpl. lia.
Qed.

(** C9: [draw(cdf, size=0)] succeeds and returns the empty array, for every
    one-dimensional [cdf]; no search is performed (the result is the same
    for every search primitive) and the world is left as it was. *)
Theorem draw_size_zero (searchsorted : list Q -> Q -> Z) (cdf : list Q) (w : World) :
  draw searchsorted cdf (Size_Int 0) w = (Ok (Array []), w).
Proof.
  rewrite draw_array by lia. simpl. f_equal.
  destruct w as [[st p] h e]. unfold advance. simpl. by rewrite Nat.add_0_r.
Qed.

(** Whenever [draw] returns, it returns a scalar for a non-integer [size]
    and an array of all [size] cells for an integer one. *)
Lemma draw_Ok_shape (searchsorted : list Q -> Q -> Z) (cdf : list Q)
    (size : size_arg) (w w' : World) (v : drawn) :
  draw searchsorted cdf size w = (Ok v, w') ->
  match size, v with
  | Size_Int s, Array out => length out = Z.to_nat s
  | Size_Int _, Scalar _ => False
  | _, Scalar _ => True
  | _, Array _ => False
  end.
Proof.
  destruct size as [|s|]; simpl; try by intros [= <- _].
  unfold mbind, M_bind, np_random_random, lift, np_empty.
  destruct (s <? 0)%Z; [done|].
  destruct (for_range _ _ _ _) as [out|e] eqn:Hloop; [|done].
  intros [= <- _].
  eapply (for_range_preserves (fun o : list Z => length o = Z.to_nat s));
    [|exact Hloop|by rewrite length_replicate].
  intros i o o' Hb Ho.
  cbv beta in Hb.
  destruct (np_get (uniforms (np_random w) (Z.to_nat s)) (Z.of_nat i))
    as [ri|]; simpl in Hb; [|done].
  apply np_set_length in Hb. congruence.
Qed.

(** ** Exceptions come before any variate is drawn *)

Lemma probvec_Raise_draws (m k : Z) (rs : random_state_arg) (w w' : World) (e : exn) :
  probvec m k rs w = (Raise e, w') -> draws_total w' = draws_total w.
Proof.
  intros H. destruct (Z.eq_dec k 1%Z) as [->|Hk1].
  { unfold probvec, lift in H. simpl in H. by injection H as _ <-. }
  destruct (source rs w) as [g|] eqn:Hg.
  - destruct (Z_lt_le_dec m 0) as [Hm|Hm]; [|destruct (Z_lt_le_dec k 2) as [Hk|Hk]].
    3: { destruct (probvec_general m k rs w g Hm Hk Hg) as (w2 & Hp & _).
         congruence. }
    all: destruct (check_random_state_source rs w g Hg)
           as (ref & w1 & Hcheck & Href & Hd1);
         unfold probvec, mbind, M_bind, random_sample2 in H;
         destruct (Z.eqb_spec k 1); [lia|]; rewrite Hcheck in H.
    + destruct (Z.ltb_spec m 0); [|lia]. simpl in H. by injection H as _ <-.
    + destruct (Z.ltb_spec (k - 1) 0); [|lia]. rewrite orb_true_r in H.
      by injection H as _ <-.
  - destruct (check_random_state_reject rs w Hg) as (e0 & Hcheck).
    unfold probvec, mbind, M_bind in H.
    destruct (Z.eqb_spec k 1); [lia|]. rewrite Hcheck in H.
    by injection H as _ <-.
Qed.

Lemma sample_Raise_draws (n k : Z) (t : option Z) (rs : random_state_arg)
    (w w' : World) (e : exn) :
  (forall g : Generator, source rs w = Some g -> uniform01 (stream g)) ->
  sample_without_replacement n k t rs w = (Raise e, w') ->
  draws_total w' = draws_total w.
Proof.
  intros Hu H.
  destruct (Z_le_gt_dec n 0) as [Hn|Hn].
  { rewrite sample_rejects_n in H by done. by injection H as _ <-. }
  destruct (Z_lt_le_dec n k) as [Hk|Hk].
  { rewrite sample_rejects_k in H by lia. by injection H as _ <-. }
  destruct (source rs w) as [g|] eqn:Hg.
  - specialize (Hu g eq_refl).
    destruct (check_random_state_source rs w g Hg)
      as (ref & w1 & Hcheck & Href & Hd1).
    destruct t as [t|].
    + destruct (Z_lt_le_dec k 0) as [Hk0|Hk0]; [|destruct (Z_lt_le_dec t 0) as [Ht|Ht]].
      3: { destruct (sample_trials_returns n k t rs w g) as (outs & w2 & Hrun);
             try done; try lia. congruence. }
      all: unfold sample_without_replacement, mbind, M_bind, random_sample2 in H;
           destruct (Z.leb_spec n 0); [lia|]; rewrite Z.gtb_ltb in H;
           destruct (Z.ltb_spec n k); [lia|]; rewrite Hcheck in H.
      * destruct (Z.ltb_spec k 0); [|lia]. rewrite orb_true_r in H.
        by injection H as _ <-.
      * destruct (Z.ltb_spec t 0); [|lia]. simpl in H. by injection H as _ <-.
    + destruct (Z_lt_le_dec k 0) as [Hk0|Hk0].
      2: { destruct (sample_flat_returns n k rs w g) as (out & w2 & Hrun);
             try done; try lia. congruence. }
      unfold sample_without_replacement, mbind, M_bind, random_sample in H.
      destruct (Z.leb_spec n 0); [lia|]. rewrite Z.gtb_ltb in H.
      destruct (Z.ltb_spec n k); [lia|]. rewrite Hcheck in H.
      destruct (Z.ltb_spec k 0); [|lia]. by injection H as _ <-.
  - destruct (sample_rejects_random_state n k t rs w) as (e0 & Hrun); try done; try lia.
    rewrite Hrun in H. by injection H as _ <-.
Qed.

Lemma draw_Raise_world (searchsorted : list Q -> Q -> Z) (cdf : list Q)
    (size : size_arg) (w w' : World) (e : exn) :
  draw searchsorted cdf size w = (Raise e, w') -> w' = w.
Proof.
  destruct size as [|s|]; try done.
  destruct (Z_lt_le_dec s 0) as [Hs|Hs].
  - unfold draw, mbind, M_bind, np_random_random.
    destruct (Z.ltb_spec s 0); [|lia]. by intros [= _ <-].
  - by rewrite draw_array.
Qed.

(** C8: every operation is atomic with respect to errors.  A precondition
    violation of [sample_without_replacement] ([n <= 0] or [k > n]) is raised
    before any output exists and before any variate is drawn: the world, and
    with it the state of every generator, is the one the call started in.
    No operation returns a partial result: whatever
    [sample_without_replacement], [probvec] or [draw] return has the full
    requested shape; and when one of them raises (on a random source of
    variates in [[0, 1)]), no variate has been drawn. *)
Theorem errors_leave_no_partial_result :
  (forall (n k : Z) (num_trials : option Z) (rs : random_state_arg) (w : World),
      (n <= 0)%Z \/ (n < k)%Z ->
      exists e : exn,
        sample_without_replacement n k num_trials rs w = (Raise e, w))
  /\ (forall (n k : Z) (num_trials : option Z) (rs : random_state_arg)
             (w w' : World) (v : sample),
        sample_without_replacement n k num_trials rs w = (Ok v, w') ->
        match num_trials, v with
        | None, Flat out => length out = Z.to_nat k
        | Some t, Trials outs =>
            length outs = Z.to_nat t
            /\ Forall (fun row => length row = Z.to_nat k) outs
        | _, _ => False
        end)
  /\ (forall (m k : Z) (rs : random_state_arg) (w w' : World) (x : list (list Q)),
        probvec m k rs w = (Ok x, w') ->
        length x = Z.to_nat m /\ Forall (fun row => length row = Z.to_nat k) x)
  /\ (forall (searchsorted : list Q -> Q -> Z) (cdf : list Q) (size : size_arg)
             (w w' : World) (v : drawn),
        draw searchsorted cdf size w = (Ok v, w') ->
        match size, v with
        | Size_Int s, Array out => length out = Z.to_nat s
        | Size_Int _, Scalar _ => False
        | _, Scalar _ => True
        | _, Array _ => False
        end)
  /\ (forall (n k : Z) (num_trials : option Z) (rs : random_state_arg)
             (w w' : World) (e : exn),
        (forall g : Generator, source rs w = Some g -> uniform01 (stream g)) ->
        sample_without_replacement n k num_trials rs w = (Raise e, w') ->
        draws_total w' = draws_total w)
  /\ (forall (m k : Z) (rs : random_state_arg) (w w' : World) (e : exn),
        probvec m k rs w = (Raise e, w') -> draws_total w' = draws_total w)
  /\ (forall (searchsorted : list Q -> Q -> Z) (cdf : list Q) (size : size_arg)
             (w w' : World) (e : exn),
        draw searchsorted cdf size w = (Raise e, w') -> w' = w).
Proof.
  repeat split.
  - intros n k t rs w Hpre. destruct (Z.le_gt_cases n 0) as [Hn|Hn].
    + eexists. by apply sample_rejects_n.
    + destruct Hpre as [?|Hk]; [lia|].
      eexists. by apply sample_rejects_k.
  - apply sample_Ok_shape.
  - by eapply probvec_Ok_shape.
  - by eapply probvec_Ok_shape.
  - apply draw_Ok_shape.
  - apply sample_Raise_draws.
  - apply probvec_Raise_draws.
  - apply draw_Raise_world.
Qed.

(** * Further properties of the module *)

(** ** More on [_probvec] *)

Lemma np_set_Ok_nat {A : Type} (a a' : list A) (i : nat) (x : A) :
  np_set a (Z.of_nat i) x = Ok a' -> (i < length a)%nat /\ a' = <[i:=x]> a.
Proof.
  unfold np_set, np_index.
  destruct (Z.leb_spec 0 (Z.of_nat i)); [|lia].
  destruct (Z.ltb_spec (Z.of_nat i) (Z.of_nat (length a))); simpl.
  - rewrite Nat2Z.id. intros [= <-]. split; [lia|done].
  - destruct (Z.leb_spec (- Z.of_nat (length a)) (Z.of_nat i));
      destruct (Z.ltb_spec (Z.of_nat i) 0); simpl; try done; lia.
Qed.

Lemma np_get_Raise {A : Type} (a : list A) (i : Z) (e : exn) :
  np_get a i = Raise e -> e = index_error.
Proof.
  unfold np_get. destruct (np_index (length a) i) as [j|]; [|congruence].
  destruct (a !! j); congruence.
Qed.

Lemma np_set_Raise {A : Type} (a : list A) (i : Z) (x : A) (e : exn) :
  np_set a i x = Raise e -> e = index_error.
Proof. unfold np_set. destruct (np_index (length a) i); congruence. Qed.

(** A loop raises only what one of its iterations raises. *)
Lemma for_each_Raise {St : Type} (P : exn -> Prop)
    (body : nat -> St -> res St) (idxs : list nat) :
  (forall i s e, body i s = Raise e -> P e) ->
  forall s e, for_each body idxs s = Raise e -> P e.
Proof.
  intros Hbody. induction idxs as [|i idxs IH]; intros s e; simpl; [done|].
  destruct (body i s) as [s1|e1] eqn:Hb; simpl.
  - apply IH.
  - intros [= <-]. by eapply Hbody.
Qed.

(** Every exception of [_probvec] is an [IndexError]. *)
Lemma _probvec_Raise (r out : list Q) (e : exn) :
  _probvec r out = Raise e -> e = index_error.
Proof.
  unfold _probvec. intros H.
  destruct (np_get (np_sort r) 0) as [r0|e0] eqn:E0;
    [rewrite bind_Ok in H|rewrite bind_Raise in H; injection H as <-;
                          by eapply np_get_Raise].
  destruct (np_set out 0 r0) as [o1|e1] eqn:E1;
    [rewrite bind_Ok in H|rewrite bind_Raise in H; injection H as <-;
                          by eapply np_set_Raise].
  match type of H with
  | mbind _ ?c = _ => destruct c as [o2|e2] eqn:E2
  end; [rewrite bind_Ok in H|].
  - destruct (np_get (np_sort r) (Z.of_nat (length r) - 1)) as [b|e3] eqn:E3;
      [rewrite bind_Ok in H; by eapply np_set_Raise|].
    rewrite bind_Raise in H. injection H as <-. by eapply np_get_Raise.
  - rewrite bind_Raise in H. injection H as <-.
    eapply (for_each_Raise (fun e => e = index_error)); [|exact E2].
    intros i o e Hb. cbv beta in Hb.
    destruct (np_get (np_sort r) (Z.of_nat i)) as [ri|ei] eqn:Ei;
      [rewrite bind_Ok in Hb|rewrite bind_Raise in Hb; injection Hb as <-;
                             by eapply np_get_Raise].
    destruct (np_get (np_sort r) (Z.of_nat i - 1)) as [ri1|ei1] eqn:Ei1;
      [rewrite bind_Ok in Hb; by eapply np_set_Raise|].
    rewrite bind_Raise in Hb. injection Hb as <-. by eapply np_get_Raise.
Qed.

(** X1: on a non-empty [r] and an [out] of at least [len(r) + 1] cells,
    [_probvec] returns; it overwrites exactly the first [len(r) + 1] cells of
    [out] with the gaps of the sorted [r], whatever they held before, and
    leaves every further cell as it was. *)
Theorem _probvec_overwrites_prefix (r out : list Q) :
  r <> [] -> (S (length r) <= length out)%nat ->
  _probvec r out = Ok (gaps (np_sort r) ++ drop (S (length r)) out).
Proof.
  intros Hr Hout. unfold _probvec.
  pose proof (np_sort_length r) as Hlen.
  set (s := np_sort r) in *. set (n := length r) in *.
  assert (0 < n)%nat as Hn by (subst n; destruct r; simpl; [done|lia]).
  assert (s <> []) as Hs by (intros E; rewrite E in Hlen; simpl in Hlen; lia).
  destruct (lookup_lt_is_Some_2 s 0%nat) as [s0 Hs0]; [lia|].
  change 0%Z with (Z.of_nat 0).
  rewrite (np_get_nat s 0%nat s0 Hs0), bind_Ok.
  rewrite (np_set_nat out 0%nat s0) by lia. rewrite bind_Ok.
  match goal with
  | |- context [for_range 1 n ?body ?s0] =>
      destruct (for_range_inv
        (fun i o => length o = length out
                    /\ take i o = take i (gaps s)
                    /\ drop (S n) o = drop (S n) out)
        body 1%nat n s0) as (o & -> & Hlo & Hto & Hdo)
  end.
  - lia.
  - split; [by rewrite length_insert|]. split.
    + destruct out as [|o0 out]; [simpl in Hout; lia|].
      destruct s as [|x s']; [done|]. simpl in *. by injection Hs0 as ->.
    + by rewrite drop_insert_lt by lia.
  - intros i o Hi (Hlo & Hto & Hdo).
    destruct (lookup_lt_is_Some_2 s i) as [a Ha]; [lia|].
    destruct (lookup_lt_is_Some_2 s (i - 1)%nat) as [b Hb]; [lia|].
    rewrite (np_get_nat s i a Ha), bind_Ok.
    replace (Z.of_nat i - 1)%Z with (Z.of_nat (i - 1)) by lia.
    rewrite (np_get_nat s (i - 1)%nat b Hb), bind_Ok.
    rewrite np_set_nat by lia.
    eexists. split; [done|]. split; [by rewrite length_insert|]. split.
    + rewrite take_S_insert by lia. rewrite Hto.
      symmetry. apply take_S_r.
      replace i with (S (i - 1)) at 1 by lia.
      apply gaps_lookup_S; [done|].
      by replace (S (i - 1)) with i by lia.
    + by rewrite drop_insert_lt by lia.
  - rewrite bind_Ok.
    destruct (lookup_lt_is_Some_2 s (n - 1)%nat) as [b Hb]; [lia|].
    replace (Z.of_nat n - 1)%Z with (Z.of_nat (n - 1)) by lia.
    rewrite (np_get_nat s (n - 1)%nat b Hb), bind_Ok.
    rewrite np_set_nat by lia. f_equal.
    assert (length (gaps s) = S n) as Hg by (rewrite gaps_length; [lia|done]).
    rewrite <- (take_drop (S n) (<[n:=(1 - b)%Q]> o)). f_equal.
    + rewrite take_S_insert by lia. rewrite Hto.
      rewrite <- (firstn_all (gaps s)) at 2. rewrite Hg.
      symmetry. apply take_S_r.
      rewrite <- Hlen at 1. apply gaps_lookup_last. by rewrite Hlen.
    + by rewrite drop_insert_lt by lia.
Qed.

(** X2: when [r] is empty, or [out] has fewer than [len(r) + 1] cells,
    [_probvec] raises [IndexError]; it never returns a truncated row. *)
Theorem _probvec_raises_out_of_bounds (r out : list Q) :
  r = [] \/ (length out <= length r)%nat ->
  _probvec r out = Raise index_error.
Proof.
  intros Hbad. destruct (_probvec r out) as [out'|e] eqn:Hrun.
  - exfalso. destruct Hbad as [->|Hshort]; [by unfold _probvec in Hrun|].
    unfold _probvec in Hrun.
    invert_bind Hrun r0 E0. invert_bind Hrun o1 E1. invert_bind Hrun o2 E2.
    invert_bind Hrun rn1 E3.
    apply np_set_Ok_nat in Hrun as [Hlt _].
    apply np_set_length in E1.
    assert (length o2 = length o1) as Hl2.
    { eapply (for_range_preserves (fun o => length o = length o1));
        [|exact E2|done].
      intros i o o' Hb Ho. invert_bind Hb ri Ei. invert_bind Hb ri1 Ei1.
      apply np_set_length in Hb. congruence. }
    lia.
  - f_equal. by eapply _probvec_Raise.
Qed.

Lemma sort_insert_Permutation (x : Q) (l : list Q) : sort_insert x l ≡ₚ x :: l.
Proof.
  induction l as [|y l IH]; simpl; [done|].
  destruct (Qle_bool x y); [done|]. rewrite IH. apply perm_swap.
Qed.

Lemma np_sort_Permutation (l : list Q) : np_sort l ≡ₚ l.
Proof.
  induction l as [|x l IH]; simpl; [done|].
  by rewrite sort_insert_Permutation, IH.
Qed.

Lemma Sorted_Qle_head_min (x : Q) (l : list Q) :
  Sorted Qle (x :: l) -> Forall (fun y => (x <= y)%Q) (x :: l).
Proof.
  intros Hs. constructor; [apply Qle_refl|].
  apply (Sorted_StronglySorted Qle_trans) in Hs. by inversion Hs.
Qed.

Lemma Sorted_Qle_last_max (l : list Q) (b : Q) :
  Sorted Qle l -> last l = Some b -> Forall (fun y => (y <= b)%Q) l.
Proof.
  intros Hs. apply (Sorted_StronglySorted Qle_trans) in Hs.
  induction Hs as [|x l Hs IH Hx]; intros Hb; [constructor|].
  destruct l as [|y l].
  - injection Hb as <-. repeat constructor. apply Qle_refl.
  - rewrite last_cons_cons in Hb. specialize (IH Hb).
    constructor; [|done].
    assert (b ∈ y :: l) as Hin.
    { apply last_Some in Hb as [l' ->]. apply elem_of_app. right. by left. }
    rewrite Forall_forall in Hx. by apply Hx.
Qed.

Lemma diffs_last (s : list Q) :
  forall prev b : Q,
    last (prev :: s) = Some b -> last (diffs prev s) = Some (1 - b)%Q.
Proof.
  induction s as [|x s IH]; intros prev b Hb; simpl.
  - by injection Hb as ->.
  - rewrite last_cons_cons in Hb. rewrite last_cons, (IH x b Hb). done.
Qed.

Lemma gaps_last (s : list Q) (b : Q) :
  last s = Some b -> last (gaps s) = Some (1 - b)%Q.
Proof.
  destruct s as [|x s]; [done|]. intros Hb. simpl.
  by rewrite last_cons, (diffs_last s x b Hb).
Qed.

(** X3: the first cell that [_probvec] writes is the smallest value of
    [r] and the last one, at index [len(r)], is 1 minus the largest. *)
Theorem _probvec_first_min_last_max (r out : list Q) :
  r <> [] -> (S (length r) <= length out)%nat ->
  exists (out' : list Q) (lo hi : Q),
    _probvec r out = Ok out'
    /\ lo ∈ r /\ hi ∈ r
    /\ Forall (fun x => (lo <= x)%Q /\ (x <= hi)%Q) r
    /\ out' !! 0%nat = Some lo
    /\ out' !! length r = Some (1 - hi)%Q.
Proof.
  intros Hr Hout.
  pose proof (np_sort_length r) as Hlen.
  pose proof (np_sort_Sorted r) as Hsorted.
  pose proof (np_sort_Permutation r) as Hperm.
  destruct (np_sort r) as [|lo s] eqn:Hs.
  { destruct r; simpl in Hlen; [done|lia]. }
  destruct (last (lo :: s)) as [hi|] eqn:Hhi; [|by apply last_None in Hhi].
  exists (gaps (lo :: s) ++ drop (S (length r)) out), lo, hi.
  split; [rewrite <- Hs; by apply _probvec_overwrites_prefix|].
  split; [rewrite <- Hperm; by left|].
  split.
  { rewrite <- Hperm. apply last_Some in Hhi as [l' ->].
    apply elem_of_app. right. by left. }
  split.
  { pose proof (Sorted_Qle_head_min lo s Hsorted) as Hmin.
    pose proof (Sorted_Qle_last_max (lo :: s) hi Hsorted Hhi) as Hmax.
    rewrite Forall_forall in Hmin, Hmax. apply Forall_forall. intros x Hx.
    rewrite <- Hperm in Hx. split; [by apply Hmin|by apply Hmax]. }
  assert (length (gaps (lo :: s)) = S (length r)) as Hg.
  { rewrite gaps_length by done. by rewrite Hlen. }
  split.
  - by rewrite lookup_app_l by lia.
  - rewrite lookup_app_l by lia.
    rewrite <- Hlen. apply gaps_lookup_last.
    rewrite last_lookup in Hhi. simpl in *. by rewrite Nat.sub_0_r.
Qed.

(** ** More on [_probvec_cpu] *)

(** X4: [_probvec_cpu] on a matrix [r] of [cols > 0] columns replaces row
    [i] of [out], for every row [i] of [r], by the gaps of the sorted row [i]
    of [r], each row on its own; rows of [out] beyond those of [r] are left
    as they were. *)
Theorem _probvec_cpu_rows_independent (r out : list (list Q)) (cols : nat) :
  Forall (fun row => length row = cols) r ->
  (0 < cols)%nat ->
  (length r <= length out)%nat ->
  Forall (fun row => length row = S cols) (take (length r) out) ->
  _probvec_cpu r out
  = Ok (map (fun row => gaps (np_sort row)) r ++ drop (length r) out).
Proof.
  intros Hr Hcols Hlen Hout. unfold _probvec_cpu.
  match goal with
  | |- for_range 0 (length r) ?body out = _ =>
      destruct (for_range_inv
        (fun i o => length o = length out
                    /\ take i o = map (fun row => gaps (np_sort row)) (take i r)
                    /\ drop i o = drop i out)
        body 0%nat (length r) out) as (o & -> & Hlo & Hto & Hdo)
  end.
  - lia.
  - done.
  - intros i o Hi (Hlo & Hto & Hdo).
    destruct (lookup_lt_is_Some_2 r i) as [ri Hri]; [lia|].
    destruct (lookup_lt_is_Some_2 o i) as [oi Hoi]; [lia|].
    rewrite (np_get_nat r i ri Hri), bind_Ok.
    rewrite (np_get_nat o i oi Hoi), bind_Ok.
    assert (length ri = cols) as Hlri.
    { by eapply (proj1 (Forall_lookup _ r) Hr). }
    assert (length oi = S cols) as Hloi.
    { assert (out !! i = Some oi) as Hoi'.
      { rewrite <- (Nat.add_0_r i), <- lookup_drop, <- Hdo, lookup_drop.
        by rewrite Nat.add_0_r. }
      eapply (proj1 (Forall_lookup _ _) Hout i).
      rewrite lookup_take. destruct (decide (i < length r)%nat); [done|lia]. }
    rewrite _probvec_gaps; [|destruct ri; simpl in *; [lia|done]|lia].
    rewrite bind_Ok, np_set_nat by lia.
    eexists. split; [done|]. split; [by rewrite length_insert|]. split.
    + rewrite take_S_insert by lia.
      rewrite (take_S_r r i ri Hri), map_app, Hto. done.
    + rewrite drop_insert_lt by lia.
      rewrite <- (Nat.add_1_r i), <- !drop_drop. by rewrite Hdo.
  - f_equal. rewrite <- (take_drop (length r) o), Hto, Hdo.
    by rewrite firstn_all.
Qed.

(** X5: [_probvec_cpu] on a matrix without rows returns [out] untouched;
    on a matrix with at least one row and no column it raises [IndexError]
    (the case that [probvec] keeps away from it by treating [k = 1]
    separately). *)
Theorem _probvec_cpu_degenerate_shapes (out : list (list Q)) :
  _probvec_cpu [] out = Ok out
  /\ (forall r' : list (list Q), _probvec_cpu ([] :: r') out = Raise index_error).
Proof.
  split; [done|]. intros r'. unfold _probvec_cpu, for_range.
  rewrite Nat.sub_0_r. simpl length. simpl seq. simpl for_each.
  change (Z.of_nat 0) with 0%Z.
  destruct out as [|o0 out]; [done|]. done.
Qed.

(** X6: the dispatch of [_probvec_cpu] on [r.ndim]: a one-dimensional
    non-empty [r] is processed into a fresh array and the caller's [out] is
    returned exactly as it was passed; an empty one-dimensional [r] raises
    [IndexError]; an [r] of any other dimension than 1 or 2 raises
    [ValueError]. *)
Theorem _probvec_cpu_ndim_dispatch (out : list (list Q)) :
  (forall r1 : list Q, r1 <> [] -> _probvec_cpu_ndim (Array1 r1) out = Ok out)
  /\ _probvec_cpu_ndim (Array1 []) out = Raise index_error
  /\ (forall r2 : list (list Q),
        _probvec_cpu_ndim (Array2 r2) out = _probvec_cpu r2 out)
  /\ (forall x : Q,
        _probvec_cpu_ndim (Array0 x) out
        = Raise (ValueError "Input `r` must be a 1D or 2D array."))
  /\ (forall d : nat,
        _probvec_cpu_ndim (ArrayN d) out
        = Raise (ValueError "Input `r` must be a 1D or 2D array.")).
Proof.
  split; [|by repeat split].
  intros r1 Hr1. unfold _probvec_cpu_ndim, np_empty.
  destruct (Z.ltb_spec (Z.of_nat (length r1) + 1) 0); [lia|].
  rewrite bind_Ok, _probvec_gaps; [done|done|].
  rewrite length_replicate. lia.
Qed.

(** ** More on [probvec] *)

Lemma advance_advance (g : Generator) (a b : nat) :
  advance (advance g a) b = advance g (a + b).
Proof. unfold advance. simpl. f_equal. lia. Qed.

Lemma map_seq_shift {A : Type} (b : nat) :
  forall (f : nat -> A) (a : nat),
    map f (seq a b) = map (fun i => f (a + i)%nat) (seq 0 b).
Proof.
  induction b as [|b IH]; intros f a; simpl; [done|].
  rewrite Nat.add_0_r. f_equal.
  rewrite (IH f (S a)), (IH (fun i => f (a + i)%nat) 1%nat).
  apply map_ext. intros i. f_equal. lia.
Qed.

(** Asking a generator for [a + b] variates gives the [a] variates of a
    first request followed by the [b] variates of a second one. *)
Lemma uniforms_app (g : Generator) (a b : nat) :
  uniforms g (a + b) = uniforms g a ++ uniforms (advance g a) b.
Proof.
  unfold uniforms. rewrite seq_app, map_app. f_equal.
  rewrite map_seq_shift. apply map_ext. intros i. simpl. f_equal. lia.
Qed.

Lemma reshape_app {A : Type} (r1 r2 c : nat) (a b : list A) :
  length a = (r1 * c)%nat ->
  reshape (r1 + r2) c (a ++ b) = reshape r1 c a ++ reshape r2 c b.
Proof.
  intros Ha. unfold reshape. rewrite seq_app, map_app. f_equal.
  - apply map_ext_in. intros i Hi. apply in_seq in Hi.
    rewrite drop_app_le by nia. rewrite take_app_le; [done|].
    rewrite length_drop. nia.
  - rewrite map_seq_shift. apply map_ext. intros i. f_equal.
    replace ((0 + r1 + i) * c)%nat with (length a + i * c)%nat by nia.
    apply drop_app_add.
Qed.





(** X7: for a [random_state] that denotes a generator, [probvec] raises
    exactly when [m < 0] or [k < 1], and what it raises then is numpy's
    [ValueError] for negative dimensions. *)
Theorem probvec_raises_iff_negative_shape
    (m k : Z) (rs : random_state_arg) (w : World) (g : Generator) :
  source rs w = Some g ->
  ((m < 0)%Z \/ (k < 1)%Z <->
   exists (e : exn) (w' : World), probvec m k rs w = (Raise e, w'))
  /\ (forall (e : exn) (w' : World),
        probvec m k rs w = (Raise e, w') -> e = negative_dimensions).
Proof.
  intros Hg.
  assert ((m < 0)%Z \/ (k < 1)%Z ->
          exists w' : World, probvec m k rs w = (Raise negative_dimensions, w'))
    as Hneg.
  { intros Hbad. destruct (Z.eq_dec k 1%Z) as [->|Hk1].
    - exists w. unfold probvec, lift, np_ones. simpl.
      destruct (Z.ltb_spec m 0); [done|lia].
    - destruct (check_random_state_source rs w g Hg)
        as (ref & w1 & Hcheck & Href & _).
      exists w1. unfold probvec, mbind, M_bind, random_sample2.
      destruct (Z.eqb_spec k 1); [lia|]. rewrite Hcheck.
      destruct (Z.ltb_spec m 0); [done|].
      destruct (Z.ltb_spec (k - 1) 0); [done|lia]. }
  assert (~ ((m < 0)%Z \/ (k < 1)%Z) ->
          exists (x : list (list Q)) (w' : World), probvec m k rs w = (Ok x, w'))
    as Hok.
  { intros Hgood. destruct (Z.eq_dec k 1%Z) as [->|Hk1].
    - eexists _, w. apply probvec_k1. lia.
    - destruct (probvec_general m k rs w g) as (w' & Hp & _); [lia|lia|done|].
      by eexists _, w'. }
  split; [split|].
  - intros Hbad. destruct (Hneg Hbad) as (w' & Hrun). by eexists _, w'.
  - intros (e & w' & Hrun).
    destruct (Z_lt_le_dec m 0) as [?|Hm]; [by left|].
    destruct (Z_lt_le_dec k 1) as [?|Hk]; [by right|].
    destruct Hok as (x & w2 & Hrun2); [lia|]. congruence.
  - intros e w' Hrun.
    destruct (Z_lt_le_dec m 0) as [?|Hm];
      [destruct Hneg as (w2 & Hrun2); [by left|congruence]|].
    destruct (Z_lt_le_dec k 1) as [?|Hk];
      [destruct Hneg as (w2 & Hrun2); [by right|congruence]|].
    destruct Hok as (x & w2 & Hrun2); [lia|]. congruence.
Qed.

(** X8: every entry of every row that [probvec] returns lies in
    [[0, 1]], and the last entry of each row is strictly positive (the
    variates being strictly below 1). *)
Theorem probvec_entries_in_unit_interval
    (m k : Z) (rs : random_state_arg) (w : World) (g : Generator) :
  (0 <= m)%Z -> (1 <= k)%Z ->
  source rs w = Some g -> uniform01 (stream g) ->
  exists (x : list (list Q)) (w' : World),
    probvec m k rs w = (Ok x, w')
    /\ Forall (fun row =>
                 Forall (fun p => (0 <= p)%Q /\ (p <= 1)%Q) row
                 /\ exists p : Q, last row = Some p /\ (0 < p)%Q) x.
Proof.
  intros Hm Hk Hg Hu.
  assert (forall l : list Q,
             Forall (fun p => (0 <= p)%Q) l ->
             Forall (fun p => (0 <= p)%Q /\ (p <= Qsum l)%Q) l) as Hbound.
  { induction 1 as [|p l Hp Hl IH]; simpl; [constructor|].
    assert (0 <= Qsum l)%Q as Hsum.
    { clear IH. induction Hl as [|q l Hq Hl IHl]; simpl; [done|].
      rewrite <- (Qplus_0_r 0). by apply Qplus_le_compat. }
    constructor.
    - split; [done|]. rewrite <- (Qplus_0_r p) at 1.
      by apply Qplus_le_compat; [apply Qle_refl|].
    - eapply Forall_impl; [exact IH|]. intros q [Hq0 Hq]. split; [done|].
      eapply Qle_trans; [exact Hq|]. rewrite <- (Qplus_0_l (Qsum l)) at 1.
      by apply Qplus_le_compat; [|apply Qle_refl]. }
  destruct (Z.eq_dec k 1%Z) as [->|Hk1].
  - eexists _, w. split; [by apply probvec_k1|].
    apply Forall_replicate. split; [by repeat constructor|].
    exists 1%Q. by split.
  - destruct (probvec_general m k rs w g) as (w' & Hp & _); [lia|lia|done|].
    eexists _, w'. split; [exact Hp|].
    apply Forall_forall. intros row Hrow.
    apply list_elem_of_In, in_map_iff in Hrow. destruct Hrow as (r & <- & Hr).
    apply list_elem_of_In in Hr.
    assert (length r = Z.to_nat (k - 1)) as Hlr.
    { pose proof (reshape_row_length (Z.to_nat m) (Z.to_nat (k - 1)) _
                    (uniforms_length g (Z.to_nat m * Z.to_nat (k - 1)))) as HF.
      rewrite Forall_forall in HF. by apply HF. }
    assert (Forall (fun x => (0 <= x)%Q /\ (x < 1)%Q) r) as Hur.
    { pose proof (reshape_Forall _ (Z.to_nat m) (Z.to_nat (k - 1)) _
                    (uniforms_uniform01 g (Z.to_nat m * Z.to_nat (k - 1)) Hu)) as HF.
      rewrite Forall_forall in HF. by apply HF. }
    pose proof (np_sort_length r) as Hls.
    pose proof (np_sort_Forall _ r Hur) as Hus.
    assert (np_sort r <> []) as Hne.
    { intros E. rewrite E in Hls. simpl in Hls. lia. }
    split.
    + pose proof (Hbound _ (gaps_nonneg _ (np_sort_Sorted r) Hus)) as HB.
      eapply Forall_impl; [exact HB|]. intros p [Hp0 Hp1]. split; [done|].
      by rewrite (Qsum_gaps _ Hne) in Hp1.
    + destruct (last (np_sort r)) as [b|] eqn:Hb; [|by apply last_None in Hb].
      exists (1 - b)%Q. split; [by apply gaps_last|].
      assert (b ∈ np_sort r) as Hin.
      { apply last_Some in Hb as [l' ->]. apply elem_of_app. right. by left. }
      rewrite Forall_forall in Hus. destruct (Hus b Hin) as [_ Hb1].
      by apply (Qlt_minus_iff b 1).
Qed.


(** [probvec] on a generator object, with the world it ends in. *)
Lemma probvec_on_generator (m k : Z) (ref : nat) (w : World) (g : Generator) :
  (0 <= m)%Z -> (2 <= k)%Z -> heap w !! ref = Some g ->
  probvec m k (RS_Generator ref) w
  = (Ok (map (fun row => gaps (np_sort row))
           (reshape (Z.to_nat m) (Z.to_nat (k - 1))
              (uniforms g (Z.to_nat m * Z.to_nat (k - 1))))),
     MkWorld (np_random w)
       (<[ref := advance g (Z.to_nat m * Z.to_nat (k - 1))]> (heap w))
       (entropy w)).
Proof.
  intros Hm Hk Hg. unfold probvec.
  destruct (Z.eqb_spec k 1); [lia|].
  unfold mbind, M_bind, check_random_state, random_sample2. rewrite Hg.
  destruct (Z.ltb_spec m 0); [lia|].
  destruct (Z.ltb_spec (k - 1) 0); [lia|]. simpl orb. cbv iota. rewrite Hg.
  unfold lift, np_empty2.
  destruct (Z.ltb_spec m 0); [lia|]. destruct (Z.ltb_spec k 0); [lia|].
  simpl orb. cbv iota. f_equal.
  apply (_probvec_cpu_gaps _ _ (Z.to_nat (k - 1))).
  - apply reshape_row_length. by rewrite uniforms_length.
  - lia.
  - by rewrite length_replicate, reshape_length.
  - apply Forall_replicate. rewrite length_replicate. lia.
Qed.

(** X10: on a generator object, one call of [probvec] for [m1 + m2] rows
    returns the rows of a call for [m1] rows followed by the rows of a
    second call for [m2] rows on the same object, and leaves the world where
    the two calls leave it: the object is advanced by exactly what each call
    consumes. *)
Theorem probvec_rows_split
    (m1 m2 k : Z) (ref : nat) (w : World) (g : Generator) :
  (0 <= m1)%Z -> (0 <= m2)%Z -> (1 <= k)%Z -> heap w !! ref = Some g ->
  exists (x1 x2 : list (list Q)) (w1 w2 : World),
    probvec m1 k (RS_Generator ref) w = (Ok x1, w1)
    /\ probvec m2 k (RS_Generator ref) w1 = (Ok x2, w2)
    /\ probvec (m1 + m2) k (RS_Generator ref) w = (Ok (x1 ++ x2), w2).
Proof.
  intros Hm1 Hm2 Hk Hg. destruct (Z.eq_dec k 1%Z) as [->|Hk1].
  - eexists _, _, w, w. rewrite !probvec_k1 by lia.
    split; [done|]. split; [done|].
    by rewrite Z2Nat.inj_add, replicate_add by lia.
  - set (c := Z.to_nat (k - 1)).
    set (a := (Z.to_nat m1 * c)%nat). set (b := (Z.to_nat m2 * c)%nat).
    pose proof (lookup_lt_Some _ _ _ Hg) as Href.
    eexists _, _, _, _.
    split; [apply (probvec_on_generator m1 k ref w g); [lia|lia|done]|].
    split.
    + apply (probvec_on_generator m2 k ref _ (advance g a)); [lia|lia|].
      simpl. by apply list_lookup_insert_eq.
    + rewrite (probvec_on_generator (m1 + m2) k ref w g) by (done || lia).
      fold c. rewrite Z2Nat.inj_add by lia.
      replace ((Z.to_nat m1 + Z.to_nat m2) * c)%nat with (a + b)%nat
        by (subst a b; lia).
      rewrite uniforms_app, reshape_app by (by rewrite uniforms_length).
      rewrite map_app. simpl.
      by rewrite list_insert_insert_eq, advance_advance.
Qed.

(** ** More on [_sample_without_replacement_single] *)

(** Loop rule for outcomes, with the index: an indexed invariant that every
    returning iteration carries one step further holds at the exit of a loop
    that returns. *)
Lemma for_each_seq_post {St : Type} (P : nat -> St -> Prop)
    (body : nat -> St -> res St) (n : nat) :
  forall (lo : nat) (s s' : St),
    (forall i s s', (lo <= i < lo + n)%nat ->
                    body i s = Ok s' -> P i s -> P (S i) s') ->
    for_each body (seq lo n) s = Ok s' -> P lo s -> P (lo + n)%nat s'.
Proof.
  induction n as [|n IH]; intros lo s s' Hstep; simpl.
  - intros [= <-]. by rewrite Nat.add_0_r.
  - destruct (body lo s) as [s1|e] eqn:Hb; [|done]. rewrite bind_Ok.
    intros Hloop HP.
    replace (lo + S n)%nat with (S lo + n)%nat by lia.
    eapply IH; [|exact Hloop|].
    + intros i t t' Hi. apply Hstep. lia.
    + eapply Hstep; [|exact Hb|exact HP]. lia.
Qed.

(** A single trial on valid input computes [select] on the identity
    pool. *)
Lemma single_trial_select (n : Z) (r : list Q) :
  (0 < n)%Z -> (Z.of_nat (length r) <= n)%Z ->
  Forall (fun x => (0 <= x)%Q /\ (x < 1)%Q) r ->
  _sample_without_replacement_single n r = Ok (select (np_arange n) n r).
Proof.
  intros Hn Hk Hr. unfold _sample_without_replacement_single.
  set (k := length r) in *. set (N := Z.to_nat n).
  unfold np_empty. destruct (Z.ltb_spec (Z.of_nat k) 0); [lia|].
  rewrite bind_Ok, Nat2Z.id.
  match goal with
  | |- context [for_range 0 k ?body ?s] =>
      destruct (for_range_inv
        (fun j (st : list Z * list Z) =>
           length st.1 = k /\ length st.2 = N
           /\ take j st.1 ++ select st.2 (n - Z.of_nat j) (drop j r)
              = select (np_arange n) n r)
        body 0%nat k s) as ([out pool] & -> & Hlo & Hlp & Hsel)
  end.
  - lia.
  - simpl. rewrite length_replicate, np_arange_length.
    split; [done|]. split; [done|]. by rewrite Z.sub_0_r.
  - intros j [out pool] Hj (Hlo & Hlp & Hsel). simpl in Hlo, Hlp, Hsel.
    destruct (lookup_lt_is_Some_2 r j) as [rj Hrj]; [subst k; lia|].
    rewrite (np_get_nat r j rj Hrj), bind_Ok.
    assert ((0 <= rj)%Q /\ (rj < 1)%Q) as [Hrj0 Hrj1].
    { by eapply (proj1 (Forall_lookup _ r) Hr). }
    destruct (Qfloor_scale rj (n - Z.of_nat j)) as [Hidx0 Hidx1]; [done|done|lia|].
    rewrite (drop_S r rj j Hrj) in Hsel. cbn [select] in Hsel.
    set (idx := Qfloor (rj * inject_Z (n - Z.of_nat j))) in *.
    set (i := Z.to_nat idx) in *.
    replace idx with (Z.of_nat i) by lia.
    destruct (lookup_lt_is_Some_2 pool i) as [v Hv]; [lia|].
    rewrite (np_get_nat pool i v Hv), bind_Ok.
    rewrite np_set_nat by lia. rewrite bind_Ok.
    remember (N - j - 1)%nat as p eqn:Hp.
    destruct (lookup_lt_is_Some_2 pool p) as [l Hl]; [lia|].
    replace (n - Z.of_nat j - 1)%Z with (Z.of_nat p) by lia.
    rewrite (np_get_nat pool p l Hl), bind_Ok.
    rewrite np_set_nat by lia. rewrite bind_Ok.
    eexists. split; [done|]. simpl.
    split; [by rewrite length_insert|]. split; [by rewrite length_insert|].
    rewrite take_S_insert by lia.
    rewrite Hv in Hsel.
    replace (Z.to_nat (n - Z.of_nat j - 1)) with p in Hsel by lia.
    rewrite Hl in Hsel.
    replace (n - Z.of_nat (S j))%Z with (n - Z.of_nat j - 1)%Z by lia.
    by rewrite <- (assoc_L (++)).
  - simpl in *. f_equal.
    rewrite drop_ge, app_nil_r in Hsel by (subst k; lia).
    by rewrite <- Hlo, firstn_all in Hsel.
Qed.

(** Selecting on more variates extends the selection on fewer. *)
Lemma select_prefix (r1 r2 : list Q) :
  forall (pool : list Z) (live : Z),
    select pool live r1 `prefix_of` select pool live (r1 ++ r2).
Proof.
  induction r1 as [|rj r1 IH]; intros pool live; simpl.
  - apply prefix_nil.
  - destruct (pool !! _) as [v|]; [|apply prefix_nil].
    destruct (pool !! _) as [l|]; [|apply prefix_nil].
    by apply prefix_cons.
Qed.

(** Whenever a single trial returns, what it returns lies in [[0, n)]. *)
Lemma single_trial_Ok_in_range (n : Z) (r : list Q) (out : list Z) :
  _sample_without_replacement_single n r = Ok out -> in_range n out.
Proof.
  unfold _sample_without_replacement_single. intros H.
  invert_bind H out0 E0. invert_bind H st E1.
  destruct st as [out' pool']. injection H as ->.
  unfold np_empty in E0. destruct (Z.of_nat (length r) <? 0)%Z; [done|].
  injection E0 as <-. rewrite Nat2Z.id in E1.
  unfold for_range in E1. rewrite Nat.sub_0_r in E1.
  assert (length (out, pool').1 = length r
          /\ in_range n (out, pool').2
          /\ in_range n (take (0 + length r) (out, pool').1))
    as (Hlen & _ & Hout).
  { eapply (for_each_seq_post
              (fun j (st : list Z * list Z) =>
                 length st.1 = length r
                 /\ in_range n st.2 /\ in_range n (take j st.1)));
      [|exact E1|].
    - intros j [o p0] [o' p0'] Hj Hb (Hlo & Hpool & Htake). simpl in *.
      invert_bind Hb rj Ej. invert_bind Hb v Ev. invert_bind Hb o1 Eo.
      invert_bind Hb l El. invert_bind Hb p1 Ep. injection Hb as <- <-.
      apply np_set_Ok_nat in Eo as [Hjlt ->].
      apply np_set_Ok in Ep as [i ->].
      apply np_get_Ok in Ev, El.
      unfold in_range in *. rewrite Forall_forall in Hpool.
      split; [by rewrite length_insert|]. split.
      + apply Forall_insert; [by apply Forall_forall|]. by apply Hpool.
      + rewrite take_S_insert by lia. apply Forall_app. split; [done|].
        apply Forall_singleton. by apply Hpool.
    - simpl. split; [by rewrite length_replicate|]. split; [|constructor].
      apply Forall_forall. intros x Hx. by apply np_arange_elem_of. }
  simpl in *. by rewrite <- Hlen, firstn_all in Hout.
Qed.


(** X12: whenever a single trial returns, for whatever [n] and whatever
    variates (also outside [[0, 1)]), it returns one integer per variate and
    every one of them lies in [[0, n)]. *)
Theorem single_trial_always_in_range (n : Z) (r : list Q) (out : list Z) :
  _sample_without_replacement_single n r = Ok out ->
  length out = length r /\ in_range n out.
Proof.
  intros Hrun. split.
  - by eapply single_trial_Ok_length.
  - by eapply single_trial_Ok_in_range.
Qed.

(** X13: a single trial given more than [n] variates cannot return
    distinct integers: whenever it returns then, some integer is
    repeated. *)
Theorem single_trial_repeats_beyond_n (n : Z) (r : list Q) (out : list Z) :
  (Z.to_nat n < length r)%nat ->
  _sample_without_replacement_single n r = Ok out -> ~ NoDup out.
Proof.
  intros Hlong Hrun Hnd.
  pose proof (single_trial_Ok_length n r out Hrun) as Hlen.
  pose proof (single_trial_Ok_in_range n r out Hrun) as Hrange.
  assert (out ⊆+ np_arange n) as Hsub.
  { apply NoDup_submseteq; [done|]. intros x Hx. apply np_arange_elem_of.
    unfold in_range in Hrange. rewrite Forall_forall in Hrange. by apply Hrange. }
  apply submseteq_length in Hsub. rewrite np_arange_length in Hsub. lia.
Qed.

Lemma np_get_nil {A : Type} (i : Z) : np_get (@nil A) i = Raise index_error.
Proof.
  unfold np_get, np_index. cbn [length]. change (Z.of_nat 0) with 0%Z.
  change (- 0)%Z with 0%Z.
  destruct (Z.leb_spec 0 i); destruct (Z.ltb_spec i 0); simpl; try done; lia.
Qed.

(** X14: a single trial on no variate returns the empty sample for every
    [n]; on at least one variate and [n <= 0] it raises [IndexError], the
    pool being empty (the case that the guard [n > 0] of
    [sample_without_replacement] keeps away from it). *)
Theorem single_trial_edge_cases (n : Z) :
  _sample_without_replacement_single n [] = Ok []
  /\ ((n <= 0)%Z ->
      forall (rj : Q) (r' : list Q),
        _sample_without_replacement_single n (rj :: r') = Raise index_error).
Proof.
  split; [done|]. intros Hn rj r'.
  unfold _sample_without_replacement_single, np_empty.
  destruct (Z.ltb_spec (Z.of_nat (length (rj :: r'))) 0); [lia|].
  rewrite bind_Ok. unfold for_range, np_arange.
  replace (Z.to_nat n) with 0%nat by lia.
  rewrite Nat.sub_0_r. cbn [length seq map for_each].
  change (Z.of_nat 0) with 0%Z. change (np_get (rj :: r') 0) with (Ok rj).
  rewrite bind_Ok, !np_get_nil. done.
Qed.

(** ** More on [sample_without_replacement] *)

(** X15: with the same integer seed, the sample of [k'] integers is the
    beginning of the sample of [k >= k'] integers. *)
Theorem sample_is_prefix_of_larger_sample
    (s n k' k : Z) (w1 w2 : World) :
  (0 < n)%Z -> (0 <= k' <= k)%Z -> (k <= n)%Z -> uniform01 (seeded s) ->
  exists out : list Z,
    fst (sample_without_replacement n k None (RS_Int s) w2) = Ok (Flat out)
    /\ fst (sample_without_replacement n k' None (RS_Int s) w1)
       = Ok (Flat (take (Z.to_nat k') out)).
Proof.
  intros Hn Hk' Hk Hu.
  set (g0 := MkGenerator (seeded s) 0).
  destruct (sample_flat_run n k (RS_Int s) w2 g0) as (w2' & Hrun2 & _);
    [done|lia|done|].
  destruct (sample_flat_run n k' (RS_Int s) w1 g0) as (w1' & Hrun1 & _);
    [done|lia|done|].
  rewrite Hrun1, Hrun2.
  rewrite !single_trial_select;
    try done; try (rewrite uniforms_length; lia);
    try (by apply uniforms_uniform01).
  eexists. split; [done|]. simpl. do 2 f_equal.
  replace (Z.to_nat k) with (Z.to_nat k' + (Z.to_nat k - Z.to_nat k'))%nat by lia.
  rewrite uniforms_app.
  destruct (select_prefix (uniforms g0 (Z.to_nat k'))
              (uniforms (advance g0 (Z.to_nat k')) (Z.to_nat k - Z.to_nat k'))
              (np_arange n) n) as [rest ->].
  assert (length (select (np_arange n) n (uniforms g0 (Z.to_nat k'))) = Z.to_nat k')
    as Hlen.
  { rewrite <- (uniforms_length g0 (Z.to_nat k')) at 2.
    eapply single_trial_Ok_length. apply single_trial_select; [done| |].
    - rewrite uniforms_length. lia.
    - by apply uniforms_uniform01. }
  by rewrite take_app_length'.
Qed.

(** X16: on valid arguments [sample_without_replacement] consumes exactly
    [k] variates, or [num_trials * k] of them when [num_trials] is given. *)
Theorem sample_draw_count
    (n k : Z) (num_trials : option Z) (rs : random_state_arg) (w : World)
    (g : Generator) :
  (0 < n)%Z -> (0 <= k <= n)%Z ->
  (forall t : Z, num_trials = Some t -> (0 <= t)%Z) ->
  source rs w = Some g -> uniform01 (stream g) ->
  exists (v : sample) (w' : World),
    sample_without_replacement n k num_trials rs w = (Ok v, w')
    /\ (Z.of_nat (draws_total w') - Z.of_nat (draws_total w)
        = match num_trials with
          | None => k
          | Some t => t * k
          end)%Z.
Proof.
  intros Hn Hk Ht Hg Hu. destruct num_trials as [t|].
  - specialize (Ht t eq_refl).
    destruct (sample_trials_run n k t rs w g Hn Hk Ht Hg) as (w' & Hrun & Hd).
    destruct (batch_trials_return n k t g Hn Hk Hu) as (outs & Hcomp & _).
    rewrite Hcomp in Hrun. exists (Trials outs), w'. split; [done|]. nia.
  - destruct (sample_flat_run n k rs w g Hn Hk Hg) as (w' & Hrun & Hd).
    destruct (single_trial_distinct n (uniforms g (Z.to_nat k))) as (out & Hout & _).
    + done.
    + rewrite uniforms_length. lia.
    + by apply uniforms_uniform01.
    + rewrite Hout in Hrun. exists (Flat out), w'. split; [done|]. lia.
Qed.


Lemma comprehension_app {A B : Type} (f : A -> res B) (xs ys : list A)
    (a b : list B) :
  comprehension f xs = Ok a -> comprehension f ys = Ok b ->
  comprehension f (xs ++ ys) = Ok (a ++ b).
Proof.
  revert a. induction xs as [|x xs IH]; intros a; simpl.
  - by intros [= <-].
  - destruct (f x) as [y|e]; [|done]. rewrite !bind_Ok.
    destruct (comprehension f xs) as [a'|e]; [|done]. rewrite bind_Ok.
    intros [= <-] Hb. by rewrite (IH a' eq_refl Hb).
Qed.

(** [sample_without_replacement] with trials on a generator object, with
    the world it ends in. *)
Lemma sample_trials_on_generator (n k t : Z) (ref : nat) (w : World) (g : Generator) :
  (0 < n)%Z -> (0 <= k <= n)%Z -> (0 <= t)%Z -> heap w !! ref = Some g ->
  sample_without_replacement n k (Some t) (RS_Generator ref) w
  = (match comprehension (_sample_without_replacement_single n)
             (reshape (Z.to_nat t) (Z.to_nat k)
                (uniforms g (Z.to_nat t * Z.to_nat k))) with
     | Ok outs => Ok (Trials outs)
     | Raise e => Raise e
     end,
     MkWorld (np_random w)
       (<[ref := advance g (Z.to_nat t * Z.to_nat k)]> (heap w)) (entropy w)).
Proof.
  intros Hn Hk Ht Hg. unfold sample_without_replacement.
  destruct (Z.leb_spec n 0); [lia|].
  rewrite Z.gtb_ltb. destruct (Z.ltb_spec n k); [lia|].
  unfold mbind, M_bind, check_random_state, random_sample2. rewrite Hg.
  destruct (Z.ltb_spec t 0); [lia|]. destruct (Z.ltb_spec k 0); [lia|].
  simpl orb. cbv iota. rewrite Hg. unfold lift.
  by destruct (comprehension _ _).
Qed.

(** X18: on a generator object, one call for [t1 + t2] trials returns the
    rows of a call for [t1] trials followed by the rows of a second call for
    [t2] trials on the same object, and leaves the world where the two calls
    leave it. *)
Theorem sample_trials_split
    (n k t1 t2 : Z) (ref : nat) (w : World) (g : Generator) :
  (0 < n)%Z -> (0 <= k <= n)%Z -> (0 <= t1)%Z -> (0 <= t2)%Z ->
  heap w !! ref = Some g -> uniform01 (stream g) ->
  exists (a b : list (list Z)) (w1 w2 : World),
    sample_without_replacement n k (Some t1) (RS_Generator ref) w
    = (Ok (Trials a), w1)
    /\ sample_without_replacement n k (Some t2) (RS_Generator ref) w1
       = (Ok (Trials b), w2)
    /\ sample_without_replacement n k (Some (t1 + t2)%Z) (RS_Generator ref) w
       = (Ok (Trials (a ++ b)), w2).
Proof.
  intros Hn Hk Ht1 Ht2 Hg Hu.
  set (c := Z.to_nat k).
  set (n1 := (Z.to_nat t1 * c)%nat). set (n2 := (Z.to_nat t2 * c)%nat).
  pose proof (lookup_lt_Some _ _ _ Hg) as Href.
  destruct (batch_trials_return n k t1 g Hn Hk Hu) as (a & Ha & _).
  destruct (batch_trials_return n k t2 (advance g n1) Hn Hk Hu) as (b & Hb & _).
  fold c n1 in Ha. fold c n2 in Hb.
  exists a, b. eexists _, _.
  split; [|split].
  - rewrite (sample_trials_on_generator n k t1 ref w g) by done.
    fold c n1. by rewrite Ha.
  - rewrite (sample_trials_on_generator n k t2 ref _ (advance g n1));
      [|done|done|done|simpl; by apply list_lookup_insert_eq].
    fold c n2. by rewrite Hb.
  - rewrite (sample_trials_on_generator n k (t1 + t2) ref w g) by (done || lia).
    fold c. rewrite Z2Nat.inj_add by lia.
    replace ((Z.to_nat t1 + Z.to_nat t2) * c)%nat with (n1 + n2)%nat
      by (subst n1 n2; lia).
    rewrite uniforms_app, reshape_app by (by rewrite uniforms_length).
    rewrite (comprehension_app _ _ _ a b Ha Hb). simpl.
    by rewrite list_insert_insert_eq, advance_advance.
Qed.

(** X19: from the same generator state, the sample returned without
    [num_trials] is the first row of the result with [num_trials >= 1]. *)
Theorem sample_flat_is_first_trial
    (n k t : Z) (rs : random_state_arg) (w : World) (g : Generator) :
  (0 < n)%Z -> (0 <= k <= n)%Z -> (1 <= t)%Z ->
  source rs w = Some g -> uniform01 (stream g) ->
  exists (out : list Z) (rest : list (list Z)),
    fst (sample_without_replacement n k None rs w) = Ok (Flat out)
    /\ fst (sample_without_replacement n k (Some t) rs w)
       = Ok (Trials (out :: rest)).
Proof.
  intros Hn Hk Ht Hg Hu.
  destruct (sample_flat_run n k rs w g Hn Hk Hg) as (w1 & Hflat & _).
  destruct (sample_trials_run n k t rs w g) as (w2 & Htrials & _);
    [done|done|lia|done|].
  destruct (batch_trials_return n k t g Hn Hk Hu) as (outs & Hcomp & _).
  rewrite Hflat, Htrials, Hcomp. simpl. clear Hflat Htrials.
  set (c := Z.to_nat k) in *.
  replace (Z.to_nat t) with (1 + Z.to_nat (t - 1))%nat in Hcomp by lia.
  replace ((1 + Z.to_nat (t - 1)) * c)%nat
    with (c + Z.to_nat (t - 1) * c)%nat in Hcomp by lia.
  rewrite uniforms_app, reshape_app in Hcomp by (rewrite uniforms_length; lia).
  assert (reshape 1 c (uniforms g c) = [uniforms g c]) as Hrow.
  { unfold reshape. simpl. rewrite drop_0.
    by rewrite <- (uniforms_length g c) at 1; rewrite firstn_all. }
  rewrite Hrow in Hcomp. simpl in Hcomp.
  destruct (_sample_without_replacement_single n (uniforms g c)) as [out|e];
    [|done].
  destruct (comprehension _ _) as [rest|e]; [|done].
  simpl in Hcomp. injection Hcomp as <-.
  by exists out, rest.
Qed.

(** ** More on [draw] *)

(** X20: whatever its arguments and its outcome, [draw] touches no
    generator object and not the entropy counter; it consumes variates of
    numpy's module-level generator only: exactly [size] of them for a
    non-negative integer [size], none for a negative one, and exactly one
    when [size] is not an integer. *)
Theorem draw_uses_only_module_generator
    (searchsorted : list Q -> Q -> Z) (cdf : list Q) (size : size_arg)
    (w w' : World) (r : res drawn) :
  draw searchsorted cdf size w = (r, w') ->
  heap w' = heap w
  /\ entropy w' = entropy w
  /\ stream (np_random w') = stream (np_random w)
  /\ pos (np_random w')
     = (pos (np_random w)
        + match size with
          | Size_Int s => Z.to_nat s
          | _ => 1
          end)%nat.
Proof.
  destruct size as [|s|]; try (intros [= _ <-]; by repeat split).
  destruct (Z_lt_le_dec s 0) as [Hs|Hs].
  - unfold draw, mbind, M_bind, np_random_random.
    destruct (Z.ltb_spec s 0); [|lia]. intros [= _ <-].
    repeat split. lia.
  - rewrite draw_array by done. intros [= _ <-]. by repeat split.
Qed.

(** X21: one call of [draw] for [s1 + s2] indices returns the indices of a
    call for [s1] followed by those of a second call for [s2], and leaves
    the world where the two calls leave it. *)
Theorem draw_batch_split
    (searchsorted : list Q -> Q -> Z) (cdf : list Q) (s1 s2 : Z) (w : World) :
  (0 <= s1)%Z -> (0 <= s2)%Z ->
  exists (a b : list Z) (w1 w2 : World),
    draw searchsorted cdf (Size_Int s1) w = (Ok (Array a), w1)
    /\ draw searchsorted cdf (Size_Int s2) w1 = (Ok (Array b), w2)
    /\ draw searchsorted cdf (Size_Int (s1 + s2)) w = (Ok (Array (a ++ b)), w2).
Proof.
  intros Hs1 Hs2. eexists _, _, _, _.
  split; [by apply draw_array|]. split; [by apply draw_array|].
  rewrite draw_array by lia. simpl.
  by rewrite Z2Nat.inj_add, uniforms_app, map_app, advance_advance by lia.
Qed.

(** X22: a call of [draw] without [size], or with a [size] that is not an
    integer, returns as a scalar the index that a call with [size = 1]
    returns in an array of one cell, and leaves the same world. *)
Theorem draw_scalar_is_batch_of_one
    (searchsorted : list Q -> Q -> Z) (cdf : list Q) (w : World) :
  exists (j : Z) (w' : World),
    draw searchsorted cdf Size_None w = (Ok (Scalar j), w')
    /\ draw searchsorted cdf Size_Other w = (Ok (Scalar j), w')
    /\ draw searchsorted cdf (Size_Int 1) w = (Ok (Array [j]), w').
Proof.
  eexists _, _. split; [reflexivity|]. split; [reflexivity|].
  rewrite draw_array by lia. unfold uniforms. simpl.
  by rewrite Nat.add_0_r.
Qed.

End Utilities.

(** * The deprecated namespaces *)

Lemma not_in_all (name : string) (all : list string) :
  negb (existsb (String.eqb name) all) = true <-> name ∉ all.
Proof.
  rewrite negb_true_iff, <- not_true_iff_false, existsb_exists. split.
  - intros Hno Hin. apply Hno. exists name. split.
    + by apply list_elem_of_In.
    + by apply String.eqb_eq.
  - intros Hnot (x & Hx & Heq). apply String.eqb_eq in Heq as <-.
    by apply Hnot, list_elem_of_In.
Qed.

(** X23: in each of the deprecated namespaces [ecdf], [filter] and
    [lqnash], [__getattr__] agrees with [__dir__]: a name that [__dir__]
    lists is forwarded to the private module after exactly one
    [DeprecationWarning] with [stacklevel] 2; any other name raises
    [AttributeError] without a warning and without consulting the private
    module. *)
Theorem deprecated_namespaces_forward_their_exports
    {Obj : Type} (private other : string -> attr Obj) (name : string) :
  ((name ∈ Ecdf.__dir__ ->
    exists msg : string,
      Ecdf.__getattr__ private name
      = ([MkWarning msg "DeprecationWarning" 2], private name))
   /\ (name ∉ Ecdf.__dir__ ->
       exists msg : string,
         Ecdf.__getattr__ private name = ([], AttributeError msg)
         /\ Ecdf.__getattr__ other name = ([], AttributeError msg)))
  /\ ((name ∈ Filter.__dir__ ->
       exists msg : string,
         Filter.__getattr__ private name
         = ([MkWarning msg "DeprecationWarning" 2], private name))
      /\ (name ∉ Filter.__dir__ ->
          exists msg : string,
            Filter.__getattr__ private name = ([], AttributeError msg)
            /\ Filter.__getattr__ other name = ([], AttributeError msg)))
  /\ ((name ∈ Lqnash.__dir__ ->
       exists msg : string,
         Lqnash.__getattr__ private name
         = ([MkWarning msg "DeprecationWarning" 2], private name))
      /\ (name ∉ Lqnash.__dir__ ->
          exists msg : string,
            Lqnash.__getattr__ private name = ([], AttributeError msg)
            /\ Lqnash.__getattr__ other name = ([], AttributeError msg))).
Proof.
  repeat split.
  all: intros Hname.
  all: unfold Ecdf.__getattr__, Filter.__getattr__, Lqnash.__getattr__.
  all: unfold Ecdf.__dir__, Filter.__dir__, Lqnash.__dir__ in Hname.
  all: try (apply not_in_all in Hname; rewrite Hname; by eexists).
  all: match goal with
       | |- context [negb (existsb (String.eqb ?n) ?all)] =>
           destruct (negb (existsb (String.eqb n) all)) eqn:Hno;
           [apply not_in_all in Hno; contradiction | by eexists]
       end.
Qed.

(** * Instances on the concrete random source *)

Lemma demo_stream_uniform01 : uniform01 demo_stream.
Proof.
  intros i. do 5 (destruct i as [|i]; [split; [discriminate|reflexivity]|]).
  split; [discriminate|reflexivity].
Qed.

Lemma demo_seeded_uniform01 (s : Z) : uniform01 (demo_seeded s).
Proof. intros i. apply demo_stream_uniform01. Qed.

(** [probvec(2, 4, random_state=3)] *)
Lemma probvec_rows_are_probability_vectors_witness :
  exists (x : list (list Q)) (w' : World),
    probvec demo_seeded demo_unseeded 0%Q 2 4 (RS_Int 3) demo_world = (Ok x, w')
    /\ length x = Z.to_nat 2
    /\ Forall (fun row => length row = Z.to_nat 4 /\ probability_vector row) x.
Proof.
  apply (probvec_rows_are_probability_vectors demo_seeded demo_unseeded 0%Q
           2 4 (RS_Int 3) demo_world (MkGenerator (demo_seeded 3) 0)).
  - lia.
  - lia.
  - reflexivity.
  - exact (demo_seeded_uniform01 3).
Defined.

(** [sample_without_replacement(5, 5, random_state=g)] for the generator
    object of the demo world: a permutation of [0, ..., 4]. *)
Lemma sample_without_replacement_distinct_witness :
  exists (out : list Z) (w' : World),
    sample_without_replacement demo_seeded demo_unseeded (-1) 5 5 None
      (RS_Generator 0) demo_world = (Ok (Flat out), w')
    /\ Z.of_nat (length out) = 5%Z
    /\ NoDup out
    /\ in_range 5 out
    /\ (5%Z = 5%Z -> out ≡ₚ np_arange 5).
Proof.
  apply (sample_without_replacement_distinct demo_seeded demo_unseeded (-1)
           5 5 (RS_Generator 0) demo_world (MkGenerator demo_stream 2)).
  - lia.
  - lia.
  - reflexivity.
  - exact demo_stream_uniform01.
Defined.

(** The same call, evaluated: the variates 0.9, 0.5, 0, 0.3, 0.3 select
    4, 2, 0, 3, 1. *)
Example sample_5_5_evaluated :
  fst (sample_without_replacement demo_seeded demo_unseeded (-1) 5 5 None
         (RS_Generator 0) demo_world)
  = Ok (Flat [4; 2; 0; 3; 1]%Z).
Proof. reflexivity. Qed.

(** [sample_without_replacement(5, 2, num_trials=3, random_state=1)] *)
Lemma sample_without_replacement_trials_witness :
  exists (outs : list (list Z)) (w' : World),
    sample_without_replacement demo_seeded demo_unseeded (-1) 5 2 (Some 3%Z)
      (RS_Int 1) demo_world = (Ok (Trials outs), w')
    /\ Z.of_nat (length outs) = 3%Z
    /\ Forall2
         (fun (trial_r : list Q) (row : list Z) =>
            _sample_without_replacement_single (-1) 5 trial_r = Ok row
            /\ Z.of_nat (length row) = 2%Z
            /\ NoDup row
            /\ in_range 5 row)
         (reshape (Z.to_nat 3) (Z.to_nat 2)
            (uniforms (MkGenerator (demo_seeded 1) 0) (Z.to_nat 3 * Z.to_nat 2)))
         outs.
Proof.
  apply (sample_without_replacement_trials demo_seeded demo_unseeded (-1)
           5 2 3 (RS_Int 1) demo_world (MkGenerator (demo_seeded 1) 0)).
  - lia.
  - lia.
  - lia.
  - reflexivity.
  - exact (demo_seeded_uniform01 1).
Defined.

(** [probvec(2, k, random_state=None)]: no variate for [k = 1], [2 * 2]
    for [k = 3]. *)
Lemma probvec_draw_count_witness :
  (exists w' : World,
      probvec demo_seeded demo_unseeded 0%Q 2 1 RS_None demo_world
      = (Ok (replicate (Z.to_nat 2) [1%Q]), w')
      /\ w' = demo_world /\ draws_total w' = draws_total demo_world)
  /\ (exists (x : list (list Q)) (w' : World),
        probvec demo_seeded demo_unseeded 0%Q 2 3 RS_None demo_world = (Ok x, w')
        /\ (Z.of_nat (draws_total w') - Z.of_nat (draws_total demo_world)
            = 2 * (3 - 1))%Z).
Proof.
  destruct (probvec_draw_count demo_seeded demo_unseeded 0%Q 2 RS_None demo_world)
    as [H1 Hk]; [lia|].
  split; [exact H1|].
  apply (Hk 3%Z (MkGenerator (demo_unseeded 0) 0)); [lia|reflexivity].
Defined.

(** [probvec(3, 1, random_state="seed")] *)
Lemma probvec_k1_ignores_random_state_witness :
  probvec demo_seeded demo_unseeded 0%Q 3 1 (RS_Other "seed") demo_world
  = (Ok (replicate (Z.to_nat 3) [1%Q]), demo_world)
  /\ (exists e : exn,
        check_random_state demo_seeded demo_unseeded (RS_Other "seed") demo_world
        = (Raise e, demo_world)).
Proof.
  destruct (probvec_k1_ignores_random_state demo_seeded demo_unseeded 0%Q
              3 (RS_Other "seed") demo_world) as [H1 H2]; [lia|].
  split; [exact H1|]. exact (proj1 (H2 eq_refl)).
Defined.

(** [sample_without_replacement(5, 3, random_state=1)] returns. *)
Lemma sample_without_replacement_raises_witness :
  exists (v : sample) (w' : World),
    sample_without_replacement demo_seeded demo_unseeded (-1) 5 3 None
      (RS_Int 1) demo_world = (Ok v, w').
Proof.
  apply (proj2 (proj2 (proj2 (proj2
           (sample_without_replacement_raises demo_seeded demo_unseeded (-1)
              5 3 None (RS_Int 1) demo_world))))
           ltac:(lia) ltac:(lia) ltac:(discriminate)
           (MkGenerator (demo_seeded 1) 0) eq_refl (demo_seeded_uniform01 1)).
Defined.

(** [sample_without_replacement(5, 3, random_state="seed")] and
    [sample_without_replacement(5, -1)] raise although [n > 0] and [k <= n]:
    the claim that the function raises only when [n <= 0] or [k > n] fails
    at these inputs. *)
Lemma sample_raises_past_the_guards :
  (sample_without_replacement demo_seeded demo_unseeded (-1) 5 3 None
     (RS_Other "seed") demo_world
   = (Raise (ValueError "random_state cannot be used as a seed"), demo_world)
   /\ ~ ((5 <= 0)%Z \/ (3 > 5)%Z))
  /\ (fst (sample_without_replacement demo_seeded demo_unseeded (-1) 5 (-1) None
             RS_None demo_world)
      = Raise (ValueError "negative dimensions are not allowed")
      /\ ~ ((5 <= 0)%Z \/ (-1 > 5)%Z)).
Proof. split; (split; [reflexivity|lia]). Qed.

(** [draw(cdf, 4)] and [draw(cdf)] for [cdf = cumsum([0.4, 0.6])]. *)
Lemma draw_returns_insertion_indices_witness :
  exists (out : list Z) (w' : World),
    draw (-1) searchsorted_leftmost [2 # 5; 1%Q] (Size_Int 4) demo_world
    = (Ok (Array out), w')
    /\ Z.of_nat (length out) = 4%Z
    /\ forall i : nat, (i < Z.to_nat 4)%nat ->
         exists j : Z,
           out !! i = Some j
           /\ least_exceeding [2 # 5; 1%Q]
                (stream (np_random demo_world) (pos (np_random demo_world) + i)%nat) j.
Proof.
  apply (proj1 (draw_returns_insertion_indices (-1) [2 # 5; 1%Q] demo_world) 4%Z).
  lia.
Defined.

(** The same array call, evaluated: the variates 0.7, 0.2, 0.9, 0.5 fall
    in categories 1, 0, 1, 1. *)
Example draw_4_evaluated :
  fst (draw (-1) searchsorted_leftmost [2 # 5; 1%Q] (Size_Int 4) demo_world)
  = Ok (Array [1; 0; 1; 1]%Z).
Proof. reflexivity. Qed.

(** [sample_without_replacement(0, 1)] raises and leaves the world alone. *)
Lemma errors_leave_no_partial_result_witness :
  exists e : exn,
    sample_without_replacement demo_seeded demo_unseeded (-1) 0 1 None
      RS_None demo_world = (Raise e, demo_world).
Proof.
  apply (proj1 (errors_leave_no_partial_result demo_seeded demo_unseeded 0%Q (-1))).
  left. lia.
Defined.

(** * Instances of the further properties *)

(** [_probvec] on two variates and an [out] of four cells. *)
Lemma _probvec_overwrites_prefix_witness :
  _probvec [7 # 10; 1 # 5] [0; 0; 0; 5]%Q
  = Ok (gaps (np_sort [7 # 10; 1 # 5])
        ++ drop (S (length [7 # 10; 1 # 5])) [0; 0; 0; 5]%Q).
Proof.
  apply (_probvec_overwrites_prefix [7 # 10; 1 # 5] [0; 0; 0; 5]%Q).
  - discriminate.
  - simpl. lia.
Defined.

(** [_probvec] on two variates and an [out] of two cells. *)
Lemma _probvec_raises_out_of_bounds_witness :
  _probvec [7 # 10; 1 # 5] [0; 0]%Q = Raise index_error.
Proof.
  apply (_probvec_raises_out_of_bounds [7 # 10; 1 # 5] [0; 0]%Q).
  right. simpl. lia.
Defined.

Lemma _probvec_first_min_last_max_witness :
  exists (out' : list Q) (lo hi : Q),
    _probvec [7 # 10; 1 # 5; 9 # 10] [0; 0; 0; 0]%Q = Ok out'
    /\ lo ∈ [7 # 10; 1 # 5; 9 # 10] /\ hi ∈ [7 # 10; 1 # 5; 9 # 10]
    /\ Forall (fun x => (lo <= x)%Q /\ (x <= hi)%Q) [7 # 10; 1 # 5; 9 # 10]
    /\ out' !! 0%nat = Some lo
    /\ out' !! length [7 # 10; 1 # 5; 9 # 10] = Some (1 - hi)%Q.
Proof.
  apply (_probvec_first_min_last_max [7 # 10; 1 # 5; 9 # 10] [0; 0; 0; 0]%Q).
  - discriminate.
  - simpl. lia.
Defined.

(** [_probvec_cpu] on a 2 by 2 matrix and an [out] of three rows. *)
Lemma _probvec_cpu_rows_independent_witness :
  _probvec_cpu [[7 # 10; 1 # 5]; [9 # 10; 1 # 2]]
    [[0; 0; 0]; [0; 0; 0]; [4; 4; 4]]%Q
  = Ok (map (fun row => gaps (np_sort row)) [[7 # 10; 1 # 5]; [9 # 10; 1 # 2]]
        ++ drop (length [[7 # 10; 1 # 5]; [9 # 10; 1 # 2]])
             [[0; 0; 0]; [0; 0; 0]; [4; 4; 4]]%Q).
Proof.
  apply (_probvec_cpu_rows_independent
           [[7 # 10; 1 # 5]; [9 # 10; 1 # 2]]
           [[0; 0; 0]; [0; 0; 0]; [4; 4; 4]]%Q 2).
  - repeat constructor.
  - lia.
  - simpl. lia.
  - simpl. repeat constructor.
Defined.

(** [_probvec_cpu] on the one-dimensional array [[0.5]]. *)
Lemma _probvec_cpu_ndim_dispatch_witness :
  _probvec_cpu_ndim 0%Q (Array1 [1 # 2]) [[3; 3]]%Q = Ok [[3; 3]]%Q.
Proof.
  apply (proj1 (_probvec_cpu_ndim_dispatch 0%Q [[3; 3]]%Q) [1 # 2]).
  discriminate.
Defined.

(** [probvec(2, 0)] *)
Lemma probvec_raises_iff_negative_shape_witness :
  ((2 < 0)%Z \/ (0 < 1)%Z <->
   exists (e : exn) (w' : World),
     probvec demo_seeded demo_unseeded 0%Q 2 0 RS_None demo_world = (Raise e, w'))
  /\ (forall (e : exn) (w' : World),
        probvec demo_seeded demo_unseeded 0%Q 2 0 RS_None demo_world = (Raise e, w') ->
        e = negative_dimensions).
Proof.
  apply (probvec_raises_iff_negative_shape demo_seeded demo_unseeded 0%Q
           2 0 RS_None demo_world (MkGenerator (demo_unseeded 0) 0)).
  reflexivity.
Defined.

(** [probvec(2, 4, random_state=3)] *)
Lemma probvec_entries_in_unit_interval_witness :
  exists (x : list (list Q)) (w' : World),
    probvec demo_seeded demo_unseeded 0%Q 2 4 (RS_Int 3) demo_world = (Ok x, w')
    /\ Forall (fun row =>
                 Forall (fun p => (0 <= p)%Q /\ (p <= 1)%Q) row
                 /\ exists p : Q, last row = Some p /\ (0 < p)%Q) x.
Proof.
  apply (probvec_entries_in_unit_interval demo_seeded demo_unseeded 0%Q
           2 4 (RS_Int 3) demo_world (MkGenerator (demo_seeded 3) 0)).
  - lia.
  - lia.
  - reflexivity.
  - exact (demo_seeded_uniform01 3).
Defined.


Lemma probvec_rows_split_witness :
  exists (x1 x2 : list (list Q)) (w1 w2 : World),
    probvec demo_seeded demo_unseeded 0%Q 1 3 (RS_Generator 0) demo_world = (Ok x1, w1)
    /\ probvec demo_seeded demo_unseeded 0%Q 2 3 (RS_Generator 0) w1 = (Ok x2, w2)
    /\ probvec demo_seeded demo_unseeded 0%Q (1 + 2) 3 (RS_Generator 0) demo_world
       = (Ok (x1 ++ x2), w2).
Proof.
  apply (probvec_rows_split demo_seeded demo_unseeded 0%Q 1 2 3 0 demo_world
           (MkGenerator demo_stream 2)).
  - lia.
  - lia.
  - lia.
  - reflexivity.
Defined.


(** A single trial on a variate outside [[0, 1)]: the index -2 wraps
    around to slot 1 of the pool. *)
Lemma single_trial_always_in_range_witness :
  length [1%Z] = length [(-1) # 2] /\ in_range 3 [1%Z].
Proof.
  apply (single_trial_always_in_range (-1) 3 [(-1) # 2] [1%Z]).
  reflexivity.
Defined.

(** A single trial on [n = 2] and three variates returns [0, 1, 1]. *)
Lemma single_trial_repeats_beyond_n_witness : ~ NoDup [0; 1; 1]%Z.
Proof.
  apply (single_trial_repeats_beyond_n (-1) 2 [0; 0; 0]%Q [0; 1; 1]%Z).
  - simpl. lia.
  - reflexivity.
Defined.

Lemma single_trial_edge_cases_witness :
  _sample_without_replacement_single (-1) 0 [1 # 2] = Raise index_error.
Proof.
  apply (proj2 (single_trial_edge_cases (-1) 0)). lia.
Defined.

(** [sample_without_replacement(5, 2, random_state=1)] and
    [sample_without_replacement(5, 4, random_state=1)] *)
Lemma sample_is_prefix_of_larger_sample_witness :
  exists out : list Z,
    fst (sample_without_replacement demo_seeded demo_unseeded (-1) 5 4 None
           (RS_Int 1) demo_world) = Ok (Flat out)
    /\ fst (sample_without_replacement demo_seeded demo_unseeded (-1) 5 2 None
              (RS_Int 1) demo_world)
       = Ok (Flat (take (Z.to_nat 2) out)).
Proof.
  apply (sample_is_prefix_of_larger_sample demo_seeded demo_unseeded (-1)
           1 5 2 4 demo_world demo_world).
  - lia.
  - lia.
  - lia.
  - exact (demo_seeded_uniform01 1).
Defined.

(** [sample_without_replacement(5, 2, num_trials=3, random_state=1)] *)
Lemma sample_draw_count_witness :
  exists (v : sample) (w' : World),
    sample_without_replacement demo_seeded demo_unseeded (-1) 5 2 (Some 3%Z)
      (RS_Int 1) demo_world = (Ok v, w')
    /\ (Z.of_nat (draws_total w') - Z.of_nat (draws_total demo_world) = 3 * 2)%Z.
Proof.
  apply (sample_draw_count demo_seeded demo_unseeded (-1) 5 2 (Some 3%Z)
           (RS_Int 1) demo_world (MkGenerator (demo_seeded 1) 0)).
  - lia.
  - lia.
  - intros t [= <-]. lia.
  - reflexivity.
  - exact (demo_seeded_uniform01 1).
Defined.


Lemma sample_trials_split_witness :
  exists (a b : list (list Z)) (w1 w2 : World),
    sample_without_replacement demo_seeded demo_unseeded (-1) 5 2 (Some 1%Z)
      (RS_Generator 0) demo_world = (Ok (Trials a), w1)
    /\ sample_without_replacement demo_seeded demo_unseeded (-1) 5 2 (Some 2%Z)
         (RS_Generator 0) w1 = (Ok (Trials b), w2)
    /\ sample_without_replacement demo_seeded demo_unseeded (-1) 5 2
         (Some (1 + 2)%Z) (RS_Generator 0) demo_world
       = (Ok (Trials (a ++ b)), w2).
Proof.
  apply (sample_trials_split demo_seeded demo_unseeded (-1) 5 2 1 2 0 demo_world
           (MkGenerator demo_stream 2)).
  - lia.
  - lia.
  - lia.
  - lia.
  - reflexivity.
  - exact demo_stream_uniform01.
Defined.

(** [sample_without_replacement(5, 3, random_state=1)] and the same call
    with [num_trials=4]. *)
Lemma sample_flat_is_first_trial_witness :
  exists (out : list Z) (rest : list (list Z)),
    fst (sample_without_replacement demo_seeded demo_unseeded (-1) 5 3 None
           (RS_Int 1) demo_world) = Ok (Flat out)
    /\ fst (sample_without_replacement demo_seeded demo_unseeded (-1) 5 3
              (Some 4%Z) (RS_Int 1) demo_world)
       = Ok (Trials (out :: rest)).
Proof.
  apply (sample_flat_is_first_trial demo_seeded demo_unseeded (-1) 5 3 4
           (RS_Int 1) demo_world (MkGenerator (demo_seeded 1) 0)).
  - lia.
  - lia.
  - lia.
  - reflexivity.
  - exact (demo_seeded_uniform01 1).
Defined.

(** [draw(cdf, 3)] on the demo world. *)
Lemma draw_uses_only_module_generator_witness :
  heap (snd (draw (-1) searchsorted_leftmost [2 # 5; 1%Q] (Size_Int 3) demo_world))
  = heap demo_world
  /\ entropy (snd (draw (-1) searchsorted_leftmost [2 # 5; 1%Q] (Size_Int 3)
                     demo_world))
     = entropy demo_world
  /\ stream (np_random (snd (draw (-1) searchsorted_leftmost [2 # 5; 1%Q]
                               (Size_Int 3) demo_world)))
     = stream (np_random demo_world)
  /\ pos (np_random (snd (draw (-1) searchsorted_leftmost [2 # 5; 1%Q]
                            (Size_Int 3) demo_world)))
     = (pos (np_random demo_world) + Z.to_nat 3)%nat.
Proof.
  apply (draw_uses_only_module_generator (-1) searchsorted_leftmost
           [2 # 5; 1%Q] (Size_Int 3) demo_world _
           (fst (draw (-1) searchsorted_leftmost [2 # 5; 1%Q] (Size_Int 3)
                   demo_world))).
  reflexivity.
Defined.

Lemma draw_batch_split_witness :
  exists (a b : list Z) (w1 w2 : World),
    draw (-1) searchsorted_leftmost [2 # 5; 1%Q] (Size_Int 1) demo_world
    = (Ok (Array a), w1)
    /\ draw (-1) searchsorted_leftmost [2 # 5; 1%Q] (Size_Int 3) w1
       = (Ok (Array b), w2)
    /\ draw (-1) searchsorted_leftmost [2 # 5; 1%Q] (Size_Int (1 + 3)) demo_world
       = (Ok (Array (a ++ b)), w2).
Proof.
  apply (draw_batch_split (-1) searchsorted_leftmost [2 # 5; 1%Q] 1 3 demo_world).
  - lia.
  - lia.
Defined.

(** [quantecon_wasm.ecdf.ECDF] and [quantecon_wasm.ecdf.nnash], for a private
    module that holds every name. *)
Lemma deprecated_namespaces_forward_their_exports_witness :
  (exists msg : string,
      Ecdf.__getattr__ (fun n => Found n) "ECDF"
      = ([MkWarning msg "DeprecationWarning" 2], Found "ECDF"%string))
  /\ (exists msg : string,
        Ecdf.__getattr__ (fun n => Found n) "nnash" = ([], AttributeError msg)
        /\ Ecdf.__getattr__ (fun _ => Found EmptyString) "nnash"
           = ([], AttributeError msg)).
Proof.
  destruct (deprecated_namespaces_forward_their_exports
              (fun n : string => Found n) (fun _ : string => Found EmptyString)
              "ECDF") as [[Hin _] _].
  destruct (deprecated_namespaces_forward_their_exports
              (fun n : string => Found n) (fun _ : string => Found EmptyString)
              "nnash") as [[_ Hout] _].
  split.
  - apply Hin. by left.
  - apply Hout. intros Hin'. by apply list_elem_of_singleton in Hin'.
Defined.
